(** * The graph slice and its epics (src/graph-slice.ts)

    A shallow embedding of the Redux slice [graphSlice] (state, actions,
    reducer) and of the redux-observable epics that call the remote gateway,
    with the RxJS operators they are built from read as functions on timed
    streams. *)

From Stdlib Require Import ZArith QArith.
From stdpp Require Import base option list sorting strings gmap.

Close Scope Q_scope.
Open Scope string_scope.
Open Scope nat_scope.
Open Scope list_scope.

(** ** Values that pass through the slice *)

(** Modelled from the spec: the value type of [DfgRequest], [FuzzyRequest]
    and [GraphParameters], declared in [models/graph], which is not among the
    sources.  The spec gives "numeric or boolean", as the values of
    [initialState] are; [undefined] is what a property read returns when the
    key is absent. *)
Inductive JsValue :=
  | JUndefined
  | JNum (n : Q)
  | JBool (b : bool).

(** [DfgRequest] and [FuzzyRequest]: flat objects from key to value.  Both
    are plain JS objects at run time, which is why one object can be cast to
    either shape. *)
Abbreviation Filters := (gmap string JsValue).

(** [obj[key]]: property read on a filter object, among the properties
    the object has of its own; the map holds exactly those. *)
Definition prop (obj : Filters) (key : string) : JsValue :=
  default JUndefined (obj !! key).

(** [Object.fromEntries(entries)]: entries are written in order, a later
    entry overwrites an earlier one with the same key. *)
Definition fromEntries (entries : list (string * JsValue)) : Filters :=
  foldl (fun obj e => <[e.1 := e.2]> obj) ∅ entries.

(** Modelled from the spec: [GraphParameters], declared in [models/graph].
    The fields are those the epics read, [id], [method], [key] and [value],
    which are the ones the spec lists. *)
Record GraphParameters := mkParam {
  p_id : string;
  p_method : string;
  p_key : string;
  p_value : JsValue
}.

(** [{...userParam, value: v}] *)
Definition withValue (userParam : GraphParameters) (v : JsValue) : GraphParameters :=
  {| p_id := p_id userParam; p_method := p_method userParam;
     p_key := p_key userParam; p_value := v |}.

(** Modelled from the spec: the enum [AlgorithmTypes], declared in
    [models/graph].  The source names [AlgorithmTypes.Dfg]; the spec gives the
    selector two values, DFG and fuzzy. *)
Inductive AlgorithmTypes := Dfg | Fuzzy.

Record EdgeWidth := { minWidth : Q; maxWidth : Q }.

(** The other types of [models/graph] and the constants of [app/config]
    are parameters: the slice only stores their values and passes them on.
    With each type come the property reads the epics make of it ([draft.id],
    [data.metrics]) and the empty object [{}] the state is initialised
    with. *)
Class Models := {
  ViewDraft : Type;
  draft_id : ViewDraft → option string;
  emptyDraft : ViewDraft;
  GraphMetrics : Type;
  emptyGraphMetrics : GraphMetrics;
  Graph : Type;
  metrics : Graph → GraphMetrics;
  emptyGraph : Graph;
  GraphNodeEdgeMetrics : Type;
  emptyNodeEdgeMetrics : GraphNodeEdgeMetrics;
  NodeEdgeId : Type;
  emptyNodeEdgeId : NodeEdgeId;
  GraphValues : Type;
  CaseCount : GraphValues;
  GRAPH_EDGE_MIN_WIDTH : Q;
  GRAPH_EDGE_MAX_WIDTH : Q
}.

Section Slice.
Context `{M : Models}.

(** ** State *)

Record GraphState := {
  isLoading : bool;
  error : string;
  viewId : string;
  draft : ViewDraft;
  graph : option Graph;            (* [None] is [null], see [setGraph(null)] *)
  dfgFilters : Filters;
  fuzzyFilters : Filters;
  userParams : list GraphParameters;
  algorithmType : AlgorithmTypes;
  graphMetrics : GraphMetrics;
  nodeEdgeMetrics : GraphNodeEdgeMetrics;
  isSidebar : bool;
  graphSidebarTabIndex : Z;
  width : EdgeWidth;
  graphValue : GraphValues;
  onPercent : bool;
  nodeEdgeHighlighting : NodeEdgeId
}.

Definition initialState : GraphState := {|
  isLoading := false;
  error := "";
  viewId := "";
  draft := emptyDraft;
  graph := Some emptyGraph;
  dfgFilters :=
    <["variant-frequency" := JNum 1]> (<["activity-frequency" := JNum 1]> ∅);
  fuzzyFilters :=
    <["node-cut-off" := JNum (1 # 1000)]>
    (<["edge-sc-ratio" := JNum 1]>
    (<["edge-preserve" := JNum 1]>
    (<["edge-interpret-abs" := JBool false]>
    (<["edge-ignore-self-loops" := JBool false]>
    (<["concurrency-preserve" := JNum 1]>
    (<["concurrency-offset" := JNum 1]>
    (<["concurrency" := JBool false]> ∅)))))));
  userParams := [];
  algorithmType := Dfg;
  graphMetrics := emptyGraphMetrics;
  nodeEdgeMetrics := emptyNodeEdgeMetrics;
  width := {| minWidth := GRAPH_EDGE_MIN_WIDTH; maxWidth := GRAPH_EDGE_MAX_WIDTH |};
  isSidebar := false;
  graphSidebarTabIndex := 0;
  graphValue := CaseCount;
  onPercent := false;
  nodeEdgeHighlighting := emptyNodeEdgeId
|}.

(** Field assignments, [state.f = v]. *)
Definition set_isLoading (v : bool) (s : GraphState) : GraphState :=
  {| isLoading := v; error := error s; viewId := viewId s; draft := draft s;
     graph := graph s; dfgFilters := dfgFilters s; fuzzyFilters := fuzzyFilters s;
     userParams := userParams s; algorithmType := algorithmType s;
     graphMetrics := graphMetrics s; nodeEdgeMetrics := nodeEdgeMetrics s;
     isSidebar := isSidebar s; graphSidebarTabIndex := graphSidebarTabIndex s;
     width := width s; graphValue := graphValue s; onPercent := onPercent s;
     nodeEdgeHighlighting := nodeEdgeHighlighting s |}.
Definition set_error (v : string) (s : GraphState) : GraphState :=
  {| isLoading := isLoading s; error := v; viewId := viewId s; draft := draft s;
     graph := graph s; dfgFilters := dfgFilters s; fuzzyFilters := fuzzyFilters s;
     userParams := userParams s; algorithmType := algorithmType s;
     graphMetrics := graphMetrics s; nodeEdgeMetrics := nodeEdgeMetrics s;
     isSidebar := isSidebar s; graphSidebarTabIndex := graphSidebarTabIndex s;
     width := width s; graphValue := graphValue s; onPercent := onPercent s;
     nodeEdgeHighlighting := nodeEdgeHighlighting s |}.
Definition set_viewId (v : string) (s : GraphState) : GraphState :=
  {| isLoading := isLoading s; error := error s; viewId := v; draft := draft s;
     graph := graph s; dfgFilters := dfgFilters s; fuzzyFilters := fuzzyFilters s;
     userParams := userParams s; algorithmType := algorithmType s;
     graphMetrics := graphMetrics s; nodeEdgeMetrics := nodeEdgeMetrics s;
     isSidebar := isSidebar s; graphSidebarTabIndex := graphSidebarTabIndex s;
     width := width s; graphValue := graphValue s; onPercent := onPercent s;
     nodeEdgeHighlighting := nodeEdgeHighlighting s |}.
Definition set_draft (v : ViewDraft) (s : GraphState) : GraphState :=
  {| isLoading := isLoading s; error := error s; viewId := viewId s; draft := v;
     graph := graph s; dfgFilters := dfgFilters s; fuzzyFilters := fuzzyFilters s;
     userParams := userParams s; algorithmType := algorithmType s;
     graphMetrics := graphMetrics s; nodeEdgeMetrics := nodeEdgeMetrics s;
     isSidebar := isSidebar s; graphSidebarTabIndex := graphSidebarTabIndex s;
     width := width s; graphValue := graphValue s; onPercent := onPercent s;
     nodeEdgeHighlighting := nodeEdgeHighlighting s |}.
Definition set_graph (v : option Graph) (s : GraphState) : GraphState :=
  {| isLoading := isLoading s; error := error s; viewId := viewId s; draft := draft s;
     graph := v; dfgFilters := dfgFilters s; fuzzyFilters := fuzzyFilters s;
     userParams := userParams s; algorithmType := algorithmType s;
     graphMetrics := graphMetrics s; nodeEdgeMetrics := nodeEdgeMetrics s;
     isSidebar := isSidebar s; graphSidebarTabIndex := graphSidebarTabIndex s;
     width := width s; graphValue := graphValue s; onPercent := onPercent s;
     nodeEdgeHighlighting := nodeEdgeHighlighting s |}.
Definition set_dfgFilters (v : Filters) (s : GraphState) : GraphState :=
  {| isLoading := isLoading s; error := error s; viewId := viewId s; draft := draft s;
     graph := graph s; dfgFilters := v; fuzzyFilters := fuzzyFilters s;
     userParams := userParams s; algorithmType := algorithmType s;
     graphMetrics := graphMetrics s; nodeEdgeMetrics := nodeEdgeMetrics s;
     isSidebar := isSidebar s; graphSidebarTabIndex := graphSidebarTabIndex s;
     width := width s; graphValue := graphValue s; onPercent := onPercent s;
     nodeEdgeHighlighting := nodeEdgeHighlighting s |}.
Definition set_fuzzyFilters (v : Filters) (s : GraphState) : GraphState :=
  {| isLoading := isLoading s; error := error s; viewId := viewId s; draft := draft s;
     graph := graph s; dfgFilters := dfgFilters s; fuzzyFilters := v;
     userParams := userParams s; algorithmType := algorithmType s;
     graphMetrics := graphMetrics s; nodeEdgeMetrics := nodeEdgeMetrics s;
     isSidebar := isSidebar s; graphSidebarTabIndex := graphSidebarTabIndex s;
     width := width s; graphValue := graphValue s; onPercent := onPercent s;
     nodeEdgeHighlighting := nodeEdgeHighlighting s |}.
Definition set_userParams (v : list GraphParameters) (s : GraphState) : GraphState :=
  {| isLoading := isLoading s; error := error s; viewId := viewId s; draft := draft s;
     graph := graph s; dfgFilters := dfgFilters s; fuzzyFilters := fuzzyFilters s;
     userParams := v; algorithmType := algorithmType s;
     graphMetrics := graphMetrics s; nodeEdgeMetrics := nodeEdgeMetrics s;
     isSidebar := isSidebar s; graphSidebarTabIndex := graphSidebarTabIndex s;
     width := width s; graphValue := graphValue s; onPercent := onPercent s;
     nodeEdgeHighlighting := nodeEdgeHighlighting s |}.
Definition set_algorithmType (v : AlgorithmTypes) (s : GraphState) : GraphState :=
  {| isLoading := isLoading s; error := error s; viewId := viewId s; draft := draft s;
     graph := graph s; dfgFilters := dfgFilters s; fuzzyFilters := fuzzyFilters s;
     userParams := userParams s; algorithmType := v;
     graphMetrics := graphMetrics s; nodeEdgeMetrics := nodeEdgeMetrics s;
     isSidebar := isSidebar s; graphSidebarTabIndex := graphSidebarTabIndex s;
     width := width s; graphValue := graphValue s; onPercent := onPercent s;
     nodeEdgeHighlighting := nodeEdgeHighlighting s |}.
Definition set_graphMetrics (v : GraphMetrics) (s : GraphState) : GraphState :=
  {| isLoading := isLoading s; error := error s; viewId := viewId s; draft := draft s;
     graph := graph s; dfgFilters := dfgFilters s; fuzzyFilters := fuzzyFilters s;
     userParams := userParams s; algorithmType := algorithmType s;
     graphMetrics := v; nodeEdgeMetrics := nodeEdgeMetrics s;
     isSidebar := isSidebar s; graphSidebarTabIndex := graphSidebarTabIndex s;
     width := width s; graphValue := graphValue s; onPercent := onPercent s;
     nodeEdgeHighlighting := nodeEdgeHighlighting s |}.
Definition set_nodeEdgeMetrics (v : GraphNodeEdgeMetrics) (s : GraphState) : GraphState :=
  {| isLoading := isLoading s; error := error s; viewId := viewId s; draft := draft s;
     graph := graph s; dfgFilters := dfgFilters s; fuzzyFilters := fuzzyFilters s;
     userParams := userParams s; algorithmType := algorithmType s;
     graphMetrics := graphMetrics s; nodeEdgeMetrics := v;
     isSidebar := isSidebar s; graphSidebarTabIndex := graphSidebarTabIndex s;
     width := width s; graphValue := graphValue s; onPercent := onPercent s;
     nodeEdgeHighlighting := nodeEdgeHighlighting s |}.
Definition set_isSidebar (v : bool) (s : GraphState) : GraphState :=
  {| isLoading := isLoading s; error := error s; viewId := viewId s; draft := draft s;
     graph := graph s; dfgFilters := dfgFilters s; fuzzyFilters := fuzzyFilters s;
     userParams := userParams s; algorithmType := algorithmType s;
     graphMetrics := graphMetrics s; nodeEdgeMetrics := nodeEdgeMetrics s;
     isSidebar := v; graphSidebarTabIndex := graphSidebarTabIndex s;
     width := width s; graphValue := graphValue s; onPercent := onPercent s;
     nodeEdgeHighlighting := nodeEdgeHighlighting s |}.
Definition set_graphSidebarTabIndex (v : Z) (s : GraphState) : GraphState :=
  {| isLoading := isLoading s; error := error s; viewId := viewId s; draft := draft s;
     graph := graph s; dfgFilters := dfgFilters s; fuzzyFilters := fuzzyFilters s;
     userParams := userParams s; algorithmType := algorithmType s;
     graphMetrics := graphMetrics s; nodeEdgeMetrics := nodeEdgeMetrics s;
     isSidebar := isSidebar s; graphSidebarTabIndex := v;
     width := width s; graphValue := graphValue s; onPercent := onPercent s;
     nodeEdgeHighlighting := nodeEdgeHighlighting s |}.
Definition set_width (v : EdgeWidth) (s : GraphState) : GraphState :=
  {| isLoading := isLoading s; error := error s; viewId := viewId s; draft := draft s;
     graph := graph s; dfgFilters := dfgFilters s; fuzzyFilters := fuzzyFilters s;
     userParams := userParams s; algorithmType := algorithmType s;
     graphMetrics := graphMetrics s; nodeEdgeMetrics := nodeEdgeMetrics s;
     isSidebar := isSidebar s; graphSidebarTabIndex := graphSidebarTabIndex s;
     width := v; graphValue := graphValue s; onPercent := onPercent s;
     nodeEdgeHighlighting := nodeEdgeHighlighting s |}.
Definition set_graphValue (v : GraphValues) (s : GraphState) : GraphState :=
  {| isLoading := isLoading s; error := error s; viewId := viewId s; draft := draft s;
     graph := graph s; dfgFilters := dfgFilters s; fuzzyFilters := fuzzyFilters s;
     userParams := userParams s; algorithmType := algorithmType s;
     graphMetrics := graphMetrics s; nodeEdgeMetrics := nodeEdgeMetrics s;
     isSidebar := isSidebar s; graphSidebarTabIndex := graphSidebarTabIndex s;
     width := width s; graphValue := v; onPercent := onPercent s;
     nodeEdgeHighlighting := nodeEdgeHighlighting s |}.
Definition set_onPercent (v : bool) (s : GraphState) : GraphState :=
  {| isLoading := isLoading s; error := error s; viewId := viewId s; draft := draft s;
     graph := graph s; dfgFilters := dfgFilters s; fuzzyFilters := fuzzyFilters s;
     userParams := userParams s; algorithmType := algorithmType s;
     graphMetrics := graphMetrics s; nodeEdgeMetrics := nodeEdgeMetrics s;
     isSidebar := isSidebar s; graphSidebarTabIndex := graphSidebarTabIndex s;
     width := width s; graphValue := graphValue s; onPercent := v;
     nodeEdgeHighlighting := nodeEdgeHighlighting s |}.
Definition set_nodeEdgeHighlighting (v : NodeEdgeId) (s : GraphState) : GraphState :=
  {| isLoading := isLoading s; error := error s; viewId := viewId s; draft := draft s;
     graph := graph s; dfgFilters := dfgFilters s; fuzzyFilters := fuzzyFilters s;
     userParams := userParams s; algorithmType := algorithmType s;
     graphMetrics := graphMetrics s; nodeEdgeMetrics := nodeEdgeMetrics s;
     isSidebar := isSidebar s; graphSidebarTabIndex := graphSidebarTabIndex s;
     width := width s; graphValue := graphValue s; onPercent := onPercent s;
     nodeEdgeHighlighting := v |}.

(** ** Actions *)

(** The action creators of [graphSlice.actions], and [authLogout] of the
    auth slice, the one foreign action the epics emit. *)
Inductive Action :=
  | getFailed (payload : string)
  | createDraft (payload : string)
  | setDraft (payload : ViewDraft)
  | saveDraft
  | saveDraftComplete
  | setAlgorithmType (payload : AlgorithmTypes)
  | setDfgFilters (payload : Filters)
  | setFuzzyFilters (payload : Filters)
  | getGraph
  | setGraph (payload : option Graph)
  | setUserParams (payload : list GraphParameters)
  | setGraphMetrics (payload : GraphMetrics)
  | setNodeEdgeMetrics (payload : GraphNodeEdgeMetrics)
  | setNodeEdgeHighlighting (payload : NodeEdgeId)
  | resetNodeEdgeMetrics
  | toggleSidebar
  | toggleMetrics (payload : Z)
  | changeEdgeWidth (payload : EdgeWidth)
  | changeGraphValue (payload : GraphValues)
  | toggleOnPercent (payload : bool)
  | resetDraft
  | resetGraph
  | resetGraphFilters
  | resetGraphMetrics
  | resetNodeEdgeHighlighting
  | resetGraphCommonParams
  | authLogout.

(** ** Reducer *)

(** [graphSlice.reducer]: one case per entry of [reducers], the statements
    of each case in source order (the innermost assignment runs first); an
    action of another slice leaves the state as it is. *)
Definition graphReducer (state : GraphState) (action : Action) : GraphState :=
  match action with
  | getFailed payload => set_error payload (set_isLoading false state)
  | createDraft payload =>
      set_error "" (set_viewId payload (set_isLoading true state))
  | setDraft payload => set_draft payload (set_isLoading false state)
  | saveDraft => set_error "" (set_isLoading true state)
  | saveDraftComplete => set_error "" (set_isLoading true state)
  | setAlgorithmType payload => set_algorithmType payload state
  | setDfgFilters payload => set_dfgFilters payload state
  | setFuzzyFilters payload => set_fuzzyFilters payload state
  | getGraph => set_error "" (set_isLoading true state)
  | setGraph payload => set_graph payload (set_isLoading false state)
  | setUserParams payload => set_userParams payload state
  | setGraphMetrics payload => set_graphMetrics payload state
  | setNodeEdgeMetrics payload => set_nodeEdgeMetrics payload state
  | setNodeEdgeHighlighting payload => set_nodeEdgeHighlighting payload state
  | resetNodeEdgeMetrics =>
      let state := set_nodeEdgeMetrics (nodeEdgeMetrics initialState) state in
      let state := if isSidebar state then set_isSidebar false state else state in
      set_graphSidebarTabIndex 0 state
  | toggleSidebar => set_isSidebar (negb (isSidebar state)) state
  | toggleMetrics payload =>
      let state := set_graphSidebarTabIndex payload state in
      if negb (isSidebar state) then set_isSidebar true state else state
  | changeEdgeWidth payload => set_width payload (set_isLoading false state)
  | changeGraphValue payload => set_graphValue payload (set_isLoading false state)
  | toggleOnPercent payload => set_onPercent payload (set_isLoading false state)
  | resetDraft => set_draft (draft initialState) state
  | resetGraph => set_graph (graph initialState) state
  | resetGraphFilters => set_dfgFilters (dfgFilters initialState) state
  | resetGraphMetrics => set_graphMetrics (graphMetrics initialState) state
  | resetNodeEdgeHighlighting =>
      set_nodeEdgeHighlighting (nodeEdgeHighlighting initialState) state
  | resetGraphCommonParams =>
      set_algorithmType (algorithmType initialState)
        (set_graphValue (graphValue initialState)
          (set_width (width initialState)
            (set_isSidebar (isSidebar initialState) state)))
  | authLogout => state
  end.

End Slice.

(** ** Observables

    The epics are pipelines of RxJS operators.  RxJS is a dependency of the
    repository, not part of it; each operator the epics use is defined here
    as the documentation of RxJS describes it, on observables read as timed
    runs.

    Time is wall-clock milliseconds.  A run of an observable, once somebody
    subscribed to it, is the remote requests it sent, the values it emitted,
    each with the time it happened, and the way it ended.  Where two events
    carry the same time stamp, timers run first, then dispatched actions,
    then responses of the network. *)

Definition Millis := nat.

(** What [catchError] receives: an [AjaxError] has a numeric [status], the
    [TimeoutError] of [timeout] has none. *)
Record RxError := { status : option Z; toString : string }.

Definition TimeoutError : RxError :=
  {| status := None; toString := "TimeoutError: Timeout has occurred" |}.

(** The calls of [api/graph-api], as the gateway sees them. *)
Inductive Request :=
  | PostViewDraft (viewId : string)
  | PatchDraftParameter (id : string) (userParam : GraphParameters)
  | PostDraft (draftId : option string)
  | PostDfg (draftId : option string) (filters : Filters)
  | PostFuzzy (draftId : option string) (filters : Filters)
  | GetDraftParams (draftId : option string).

Inductive Ending :=
  | Open                                   (* neither completed nor failed *)
  | Completed (t : Millis)
  | Errored (t : Millis) (e : RxError).

Record Obs (A : Type) := mkObs {
  requests : list (Millis * Request);
  emits : list (Millis * A);
  ending : Ending
}.
Arguments mkObs {A}.
Arguments requests {A}.
Arguments emits {A}.
Arguments ending {A}.

(** A cold observable: what it does when subscribed to at a given time. *)
Definition Cold (A : Type) := Millis → Obs A.

(** What the remote end does with one request: it answers after [delay]
    milliseconds, with an error or a value, or it never answers. *)
Inductive Reply (A : Type) :=
  | Settles (delay : Millis) (result : RxError + A)
  | Pending.
Arguments Settles {A}.
Arguments Pending {A}.

(** The observable an api function returns: subscribing sends the request,
    the response is emitted and completes it, a failure ends it. *)
Definition ajax {A} (rq : Request) (reply : Millis → Reply A) : Cold A := fun t =>
  match reply t with
  | Settles d (inr a) => mkObs [(t, rq)] [(t + d, a)] (Completed (t + d))
  | Settles d (inl e) => mkObs [(t, rq)] [] (Errored (t + d) e)
  | Pending => mkObs [(t, rq)] [] Open
  end.

Notation "x |> f" := (f x) (at level 71, left associativity, only parsing).

(** Operators applied to the observable of a remote call. *)
Module Rx.

Definition of_ {A} (a : A) : Cold A := fun t =>
  mkObs [] [(t, a)] (Completed t).

Definition map {A B} (project : A → B) (source : Cold A) : Cold B := fun t =>
  let o := source t in
  mkObs (requests o) (prod_map id project <$> emits o) (ending o).

(** [mergeMap] with a projection to an array: the elements are emitted at
    once, in order. *)
Definition mergeMap {A B} (project : A → list B) (source : Cold A) : Cold B := fun t =>
  let o := source t in
  mkObs (requests o)
        (e ← emits o; (fun b => (e.1, b)) <$> project e.2)
        (ending o).

(** [catchError]: when the source fails, continue with the observable the
    selector returns, subscribed to at the time of the failure. *)
Definition catchError {A} (selector : RxError → Cold A) (source : Cold A) : Cold A := fun t =>
  let o := source t in
  match ending o with
  | Errored te e =>
      let r := selector e te in
      mkObs (requests o ++ requests r) (emits o ++ emits r) (ending r)
  | _ => o
  end.

(** [timeout(due)]: a timer of [due] ms runs from the subscription and is
    restarted by every value; when it fires the source is unsubscribed from
    and the result fails with [TimeoutError]. *)
Fixpoint timeout_from {A} (due : nat) (last : Millis)
    (es : list (Millis * A)) (e : Ending) : list (Millis * A) * Ending :=
  match es with
  | [] =>
      match e with
      | Open => ([], Errored (last + due) TimeoutError)
      | Completed t =>
          if t <? last + due then ([], e) else ([], Errored (last + due) TimeoutError)
      | Errored t _ =>
          if t <? last + due then ([], e) else ([], Errored (last + due) TimeoutError)
      end
  | (t, a) :: es' =>
      if t <? last + due
      then let r := timeout_from due t es' e in ((t, a) :: r.1, r.2)
      else ([], Errored (last + due) TimeoutError)
  end.

Definition timeout {A} (due : nat) (source : Cold A) : Cold A := fun t =>
  let o := source t in
  let r := timeout_from due t (emits o) (ending o) in
  mkObs (requests o) r.1 r.2.

(** What [forkJoin] needs of each of its sources. *)
Inductive Verdict (A : Type) :=
  | Done (t : Millis) (v : A)     (* completed at [t], last value [v] *)
  | Empty (t : Millis)            (* completed at [t] without a value *)
  | Failed (t : Millis) (e : RxError)
  | Hang.
Arguments Done {A}.
Arguments Empty {A}.
Arguments Failed {A}.
Arguments Hang {A}.

Definition verdict {A} (o : Obs A) : Verdict A :=
  match ending o with
  | Completed t =>
      match last (emits o) with
      | Some e => Done t e.2
      | None => Empty t
      end
  | Errored t e => Failed t e
  | Open => Hang
  end.

(** The values of the sources and the time the last one completed, when
    all of them completed with a value. *)
Fixpoint allDone {A} (vs : list (Verdict A)) : option (Millis * list A) :=
  match vs with
  | [] => Some (0, [])
  | Done t v :: vs' =>
      match allDone vs' with
      | Some (t', l) => Some (t `max` t', v :: l)
      | None => None
      end
  | _ :: _ => None
  end.

(** The first source that fails, or completes without a value: either ends
    the join on the spot. *)
Fixpoint firstAbort {A} (vs : list (Verdict A)) : option (Millis * Ending) :=
  match vs with
  | [] => None
  | v :: vs' =>
      let here :=
        match v with
        | Failed t e => Some (t, Errored t e)
        | Empty t => Some (t, Completed t)
        | _ => None
        end in
      match here, firstAbort vs' with
      | Some (t, e), Some (t', e') => if t' <? t then Some (t', e') else Some (t, e)
      | Some x, None => Some x
      | None, r => r
      end
  end.

(** [forkJoin(...observables, resultSelector)]: subscribes to all sources
    at once; with no source it completes at once and emits nothing;
    otherwise it emits the selector's result once every source has
    completed, and fails as soon as one source fails. *)
Definition forkJoin {A B} (observables : list (Cold A)) (resultSelector : list A → B)
    : Cold B := fun t =>
  let subscribed := (fun o => o t) <$> observables in
  let sent := mjoin (requests <$> subscribed) in
  match subscribed with
  | [] => mkObs [] [] (Completed t)
  | _ =>
      match firstAbort (verdict <$> subscribed) with
      | Some (_, e) => mkObs sent [] e
      | None =>
          match allDone (verdict <$> subscribed) with
          | Some (tm, values) => mkObs sent [(tm, resultSelector values)] (Completed tm)
          | None => mkObs sent [] Open
          end
      end
  end.

End Rx.

(** Operators applied to the stream of dispatched actions, which never
    completes.  Each value carries the time it was emitted at and the number
    of actions the store had reduced by then. *)
Record Stamp := { ms : Millis; seen : nat }.

Definition Hot (A : Type) := list (Stamp * A).

Module Src.

Definition filter {A} (predicate : A → bool) (source : Hot A) : Hot A :=
  List.filter (fun e => predicate e.2) source.

(** [withLatestFrom(state$)]: [state_ n] is the value of the state
    observable once the store has reduced [n] actions. *)
Definition withLatestFrom {A S} (state_ : nat → S) (source : Hot A) : Hot (A * S) :=
  (fun e => (e.1, (e.2, state_ (seen e.1)))) <$> source.

(** [debounceTime(due)]: a value is emitted [due] ms after it arrived, by
    a timer of the scheduler, unless the next value arrives before the timer
    fires.  [async fire] is the number of actions the store has reduced when
    a timer set for [fire] runs. *)
Fixpoint debounceTime {A} (due : nat) (async : Millis → nat) (source : Hot A) : Hot A :=
  match source with
  | [] => []
  | (s, a) :: rest =>
      let fire := ms s + due in
      let later := debounceTime due async rest in
      match rest with
      | (s', _) :: _ =>
          if ms s' <? fire then later
          else ({| ms := fire; seen := async fire |}, a) :: later
      | [] => [({| ms := fire; seen := async fire |}, a)]
      end
  end.

Definition mapTo {A B} (value : B) (source : Hot A) : Obs B :=
  mkObs [] ((fun e => (ms e.1, value)) <$> source) Open.

(** [mergeMapTo(array)] and [mergeMap] with a projection to an array: the
    elements are emitted at once, in order. *)
Definition mergeMap {A B} (project : A → list B) (source : Hot A) : Obs B :=
  mkObs [] (e ← source; (fun b => (ms e.1, b)) <$> project e.2) Open.

Definition mergeMapTo {A B} (inner : list B) (source : Hot A) : Obs B :=
  mergeMap (fun _ => inner) source.

(** Unsubscribing from an inner observable at time [cut]: what it would
    have done from then on is not seen; the requests it sent were sent. *)
Definition before (cut : option Millis) (t : Millis) : bool :=
  match cut with
  | Some c => t <? c
  | None => true
  end.

Definition unsubscribedAt {B} (cut : option Millis) (o : Obs B) : Obs B :=
  mkObs (requests o)
        (List.filter (fun e => before cut e.1) (emits o))
        (match ending o with
         | Open => Open
         | Completed t => if before cut t then Completed t else Open
         | Errored t e => if before cut t then Errored t e else Open
         end).

(** [switchMap(project)]: every value of the source subscribes to the
    observable it projects to and unsubscribes from the previous one.  An
    inner observable that fails ends the result, and what the source emits
    afterwards finds no subscriber. *)
Fixpoint switchMap {A B} (project : A → Cold B) (source : Hot A) : Obs B :=
  match source with
  | [] => mkObs [] [] Open
  | (s, a) :: rest =>
      let inner :=
        unsubscribedAt ((fun e => ms e.1) <$> head rest) (project a (ms s)) in
      match ending inner with
      | Errored _ _ => inner
      | _ =>
          let out := switchMap project rest in
          mkObs (requests inner ++ requests out) (emits inner ++ emits out) (ending out)
      end
  end.

End Src.

Section Epics.
Context `{M : Models}.

(** ** The remote gateway ([api/graph-api])

    The far end of each api call: how the service answers a call made at a
    given time with given arguments. *)
Record Gateway := {
  net_postViewDraft : string → Millis → Reply ViewDraft;
  net_patchDraftParameter : string → GraphParameters → Millis → Reply unit;
  net_postDraft : option string → Millis → Reply unit;
  net_postDfg : option string → Filters → Millis → Reply Graph;
  net_postFuzzy : option string → Filters → Millis → Reply Graph;
  net_getDraftParams : option string → Millis → Reply (list GraphParameters)
}.

Variable remote : Gateway.

Definition postViewDraft (viewId : string) : Cold ViewDraft :=
  ajax (PostViewDraft viewId) (net_postViewDraft remote viewId).
Definition patchDraftParameter (id : string) (userParam : GraphParameters) : Cold unit :=
  ajax (PatchDraftParameter id userParam) (net_patchDraftParameter remote id userParam).
Definition postDraft (draftId : option string) : Cold unit :=
  ajax (PostDraft draftId) (net_postDraft remote draftId).
Definition postDfg (draftId : option string) (filters : Filters) : Cold Graph :=
  ajax (PostDfg draftId filters) (net_postDfg remote draftId filters).
Definition postFuzzy (draftId : option string) (filters : Filters) : Cold Graph :=
  ajax (PostFuzzy draftId filters) (net_postFuzzy remote draftId filters).
Definition getDraftParams (draftId : option string) : Cold (list GraphParameters) :=
  ajax (GetDraftParams draftId) (net_getDraftParams remote draftId).

(** ** Action matchers, [creator.match] *)

Definition createDraft_match (a : Action) : bool :=
  match a with createDraft _ => true | _ => false end.
Definition saveDraft_match (a : Action) : bool :=
  match a with saveDraft => true | _ => false end.
Definition saveDraftComplete_match (a : Action) : bool :=
  match a with saveDraftComplete => true | _ => false end.
Definition setDraft_match (a : Action) : bool :=
  match a with setDraft _ => true | _ => false end.
Definition setAlgorithmType_match (a : Action) : bool :=
  match a with setAlgorithmType _ => true | _ => false end.
Definition getGraph_match (a : Action) : bool :=
  match a with getGraph => true | _ => false end.
Definition setUserParams_match (a : Action) : bool :=
  match a with setUserParams _ => true | _ => false end.

(** ** Epics *)

Definition handleError (error : RxError) : Cold Action :=
  if bool_decide (status error = Some 401%Z) then
    Rx.of_ authLogout
  else if bool_decide (status error = Some 500%Z) || bool_decide (status error = Some 404%Z) then
    Rx.of_ (setGraph None)
  else
    Rx.of_ (getFailed (toString error)).

Definition draftEpic (action_ : Hot Action) (state_ : nat → GraphState) : Obs Action :=
  action_
  |> Src.filter createDraft_match
  |> Src.withLatestFrom state_
  |> Src.switchMap (fun '(_, state) =>
       postViewDraft (viewId state)
       |> Rx.map (fun data => setDraft data)
       |> Rx.catchError (fun err => handleError err)).

(** The parameters the save sends: each takes its value from the filter
    set of its own method. *)
Definition newUserParams (state : GraphState) : list GraphParameters :=
  (fun userParam =>
     withValue userParam
       (if bool_decide (p_method userParam = "fuzzy")
        then prop (fuzzyFilters state) (p_key userParam)
        else prop (dfgFilters state) (p_key userParam)))
  <$> userParams state.

Definition saveDraftEpic (action_ : Hot Action) (state_ : nat → GraphState) : Obs Action :=
  action_
  |> Src.filter saveDraft_match
  |> Src.withLatestFrom state_
  |> Src.switchMap (fun '(_, state) =>
       let newUserParams := newUserParams state in
       let observables :=
         (fun userParam =>
            patchDraftParameter (p_id userParam) userParam |> Rx.timeout 1000)
         <$> newUserParams in
       Rx.forkJoin observables (fun _ => saveDraftComplete)).

Definition saveDraftCompleteEpic (action_ : Hot Action) (state_ : nat → GraphState)
    : Obs Action :=
  action_
  |> Src.filter saveDraftComplete_match
  |> Src.withLatestFrom state_
  |> Src.switchMap (fun '(_, state) =>
       postDraft (draft_id (draft state))
       |> Rx.map (fun _ => resetDraft)
       |> Rx.catchError handleError).

Definition setDraftEpic (action_ : Hot Action) : Obs Action :=
  action_
  |> Src.filter setDraft_match
  |> Src.mergeMapTo
       [setDfgFilters (dfgFilters initialState);
        setFuzzyFilters (fuzzyFilters initialState);
        getGraph].

Definition setAlgorithmTypeEpic (action_ : Hot Action) : Obs Action :=
  action_ |> Src.filter setAlgorithmType_match |> Src.mapTo getGraph.

(** [async] is the scheduler of [debounceTime]. *)
Definition graphEpic (async : Millis → nat)
    (action_ : Hot Action) (state_ : nat → GraphState) : Obs Action :=
  action_
  |> Src.filter getGraph_match
  |> Src.debounceTime 1000 async
  |> Src.withLatestFrom state_
  |> Src.switchMap (fun '(_, state) =>
       (match algorithmType state with
        | Dfg => postDfg (draft_id (draft state)) (dfgFilters state)
        | Fuzzy => postFuzzy (draft_id (draft state)) (fuzzyFilters state)
        end)
       |> Rx.mergeMap (fun data => [setGraph (Some data); setGraphMetrics (metrics data)])
       |> Rx.catchError handleError).

Definition graphUserParametersEpic (action_ : Hot Action) (state_ : nat → GraphState)
    : Obs Action :=
  action_
  |> Src.filter setDraft_match
  |> Src.withLatestFrom state_
  |> Src.withLatestFrom state_
  |> Src.switchMap (fun '(_, state) =>
       getDraftParams (draft_id (draft state))
       |> Rx.map (fun response => setUserParams response)
       |> Rx.catchError handleError).

(** The object the projection builds from the parameter list. *)
Definition objParams (state : GraphState) : Filters :=
  let mappedParams :=
    (fun parameter => (p_key parameter, p_value parameter)) <$> userParams state in
  fromEntries mappedParams.

Definition graphParametersEpic (action_ : Hot Action) (state_ : nat → GraphState)
    : Obs Action :=
  action_
  |> Src.filter setUserParams_match
  |> Src.withLatestFrom state_
  |> Src.mergeMap (fun '(_, state) =>
       let objParams := objParams state in
       [setDfgFilters objParams; setFuzzyFilters objParams]).

(** ** The store

    A run is the list of the actions dispatched to the store, each with the
    time of its dispatch, in the order they were dispatched.  The store
    reduces an action before the epics see it. *)
Definition Log := list (Millis * Action).

(** The action stream: the [n]-th action of the run (counting from 0, after
    [reduced] earlier ones) is seen once the store has reduced it. *)
Fixpoint stamped (reduced : nat) (log : Log) : Hot Action :=
  match log with
  | [] => []
  | e :: rest => ({| ms := e.1; seen := S reduced |}, e.2) :: stamped (S reduced) rest
  end.

Definition action_of (log : Log) : Hot Action := stamped 0 log.

Definition state_of (preloaded : GraphState) (log : Log) : nat → GraphState :=
  fun n => foldl graphReducer preloaded (take n log.*2).

(** The scheduler's timers run before the actions dispatched at the same
    millisecond: a timer set for [fire] sees the actions dispatched before
    [fire]. *)
Definition async_of (log : Log) : Millis → nat :=
  fun fire => length (List.filter (fun e => e.1 <? fire) log).

End Epics.

(** ** A sample instance

    Concrete payload types and concrete runs, for the examples below: a
    draft is its id, a graph is a pair of a body and its metrics. *)
Definition sampleModels : Models := {|
  ViewDraft := option string;
  draft_id := fun d => d;
  emptyDraft := None;
  GraphMetrics := string;
  emptyGraphMetrics := "";
  Graph := string * string;
  metrics := snd;
  emptyGraph := ("", "");
  GraphNodeEdgeMetrics := unit;
  emptyNodeEdgeMetrics := tt;
  NodeEdgeId := unit;
  emptyNodeEdgeId := tt;
  GraphValues := bool;
  CaseCount := true;
  GRAPH_EDGE_MIN_WIDTH := 1;
  GRAPH_EDGE_MAX_WIDTH := 10
|}.

(** An [AjaxError] with the given status. *)
Definition ajaxError (code : Z) : RxError :=
  {| status := Some code; toString := "AjaxError: ajax error" |}.

(** A gateway that answers every call after 20 ms, with success; a draft
    has one parameter. *)
Definition sampleGateway : @Gateway sampleModels :=
  @Build_Gateway sampleModels
    (fun v _ => Settles 20 (inr (Some ("draft of " +:+ v))))
    (fun _ _ _ => Settles 20 (inr ()))
    (fun _ _ => Settles 20 (inr ()))
    (fun _ _ _ => Settles 20 (inr ("dfg", "dfg metrics")))
    (fun _ _ _ => Settles 20 (inr ("fuzzy", "fuzzy metrics")))
    (fun _ _ => Settles 20 (inr [mkParam "1" "dfg" "activity-frequency" (JNum (1 # 2))])).

(** A gateway whose every call fails after 20 ms with the given error. *)
Definition failingGateway (e : RxError) : @Gateway sampleModels :=
  @Build_Gateway sampleModels
    (fun _ _ => Settles 20 (inl e))
    (fun _ _ _ => Settles 20 (inl e))
    (fun _ _ => Settles 20 (inl e))
    (fun _ _ _ => Settles 20 (inl e))
    (fun _ _ _ => Settles 20 (inl e))
    (fun _ _ => Settles 20 (inl e)).

(** Two parameters with one key. *)
Definition sharedKeyParams : list GraphParameters :=
  [mkParam "1" "dfg" "threshold" (JNum 1); mkParam "2" "fuzzy" "threshold" (JNum 2)].

(** Two [createDraft] in a row, the second before the first is answered. *)
Definition twoDraftsLog : @Log sampleModels :=
  [(0, createDraft "a"); (5, createDraft "b")].

(** A DFG filter set other than the initial one. *)
Definition halfActivity : Filters :=
  <["variant-frequency" := JNum 1]> (<["activity-frequency" := JNum (1 # 2)]> ∅).

(** A burst of two [getGraph], a change of the DFG filter set 200 ms
    after the second, and the two events of the graph epic once
    [sampleGateway] has answered its request. *)
Definition lateFilterLog : @Log sampleModels :=
  [(0, getGraph); (500, getGraph); (700, setDfgFilters halfActivity);
   (1520, @setGraph sampleModels (Some ("dfg", "dfg metrics")));
   (1520, @setGraphMetrics sampleModels "dfg metrics")].

(** A switch to the fuzzy algorithm and the refetch that follows it. *)
Definition fuzzyLog : @Log sampleModels :=
  [(0, setAlgorithmType Fuzzy); (0, getGraph)].

(** A switch to the fuzzy algorithm with the refetch that follows it, a
    reset of the common parameters 500 ms later, and the two events of the
    graph epic once [sampleGateway] has answered its request. *)
Definition resetSelectorLog : @Log sampleModels :=
  [(0, setAlgorithmType Fuzzy); (0, getGraph); (500, resetGraphCommonParams);
   (1020, @setGraph sampleModels (Some ("dfg", "dfg metrics")));
   (1020, @setGraphMetrics sampleModels "dfg metrics")].

(** One [createDraft], and the event of the draft epic once
    [failingGateway] has answered with status 401. *)
Definition unauthorizedLog : @Log sampleModels :=
  [(0, createDraft "view-42"); (20, authLogout)].

Definition oneDraftLog : @Log sampleModels := [(0, createDraft "view-42")].

(** The run that [createDraft "view-42"] starts with [sampleGateway]: the
    draft arrives at 20 ms, its parameters at 40 ms, the graph at 1040 ms. *)
Definition draftLoadLog : @Log sampleModels :=
  [(0, createDraft "view-42");
   (20, @setDraft sampleModels (Some "draft of view-42"));
   (20, setDfgFilters (dfgFilters (@initialState sampleModels)));
   (20, setFuzzyFilters (fuzzyFilters (@initialState sampleModels)));
   (20, getGraph);
   (40, setUserParams [mkParam "1" "dfg" "activity-frequency" (JNum (1 # 2))]);
   (40, setDfgFilters (<["activity-frequency" := JNum (1 # 2)]> ∅));
   (40, setFuzzyFilters (<["activity-frequency" := JNum (1 # 2)]> ∅));
   (1040, @setGraph sampleModels (Some ("dfg", "dfg metrics")));
   (1040, @setGraphMetrics sampleModels "dfg metrics")].

Definition oneSaveLog : @Log sampleModels := [(0, saveDraft)].

(** A state with one user parameter. *)
Definition oneParamState : @GraphState sampleModels :=
  graphReducer initialState
    (setUserParams [mkParam "1" "dfg" "activity-frequency" (JNum 1)]).


(** ** Notions the properties are stated with *)

Section Notions.
Context `{M : Models}.

(** The update of one parameter, sent at [t], fails or takes 1000 ms or
    more. *)
Definition updateFails (remote : Gateway) (t : Millis) (userParam : GraphParameters) : Prop :=
  match net_patchDraftParameter remote (p_id userParam) userParam t with
  | Settles d (inr _) => 1000 ≤ d
  | Settles _ (inl _) => True
  | Pending => True
  end.

(** The state once the parameter list [ps] has arrived in [setUserParams]
    and the events the projection epic emits for it have been reduced. *)
Definition projected (preloaded : GraphState) (ps : list GraphParameters) : GraphState :=
  let log := [(0, setUserParams ps)] in
  let followUp := emits (graphParametersEpic (action_of log) (state_of preloaded log)) in
  foldl graphReducer (state_of preloaded log 1) followUp.*2.

(** Projecting the list into the filter sets, then merging the filter sets
    back into the list as the save does. *)
Definition roundTrip (preloaded : GraphState) (ps : list GraphParameters)
    : list GraphParameters :=
  newUserParams (projected preloaded ps).


(** The log is in the order of dispatch: time stamps do not decrease. *)
Definition chronological (log : Log) : Prop :=
  StronglySorted (fun e e' => e.1 ≤ e'.1) log.

(** The state after the actions of the run dispatched before [fire]. *)
Definition stateBefore (preloaded : GraphState) (log : Log) (fire : Millis) : GraphState :=
  foldl graphReducer preloaded (List.filter (fun e => e.1 <? fire) log).*2.

(** The times of the [getGraph] actions of a run, and what makes them one
    burst: each comes less than 1000 ms after the one before. *)
Definition refetchTimes (log : Log) : list Millis :=
  (List.filter (fun e => getGraph_match e.2) log).*1.

Definition burst (times : list Millis) : Prop :=
  ∀ i t t', times !! i = Some t → times !! S i = Some t' → t' < t + 1000.

(** The graph request a state asks for, and the reply of the gateway to
    it. *)
Definition computeRequest (state : GraphState) : Request :=
  match algorithmType state with
  | Dfg => PostDfg (draft_id (draft state)) (dfgFilters state)
  | Fuzzy => PostFuzzy (draft_id (draft state)) (fuzzyFilters state)
  end.

Definition computeReply (remote : Gateway) (state : GraphState) : Millis → Reply Graph :=
  match algorithmType state with
  | Dfg => net_postDfg remote (draft_id (draft state)) (dfgFilters state)
  | Fuzzy => net_postFuzzy remote (draft_id (draft state)) (fuzzyFilters state)
  end.

(** A result other than a failure with status 401. *)
Definition authorized {A} (r : RxError + A) : Prop :=
  match r with
  | inl e => status e ≠ Some 401%Z
  | inr _ => True
  end.

(** The transition of an action sets the loading flag to false. *)
Definition clearsLoading (a : Action) : Prop :=
  ∀ state, isLoading (graphReducer state a) = false.

(** The epic that answers each of the actions whose transition sets the
    loading flag to true. *)
Definition workflowOf (remote : Gateway) (log : Log) (a : Action)
    : option (Hot Action → (nat → GraphState) → Obs Action) :=
  match a with
  | createDraft _ => Some (draftEpic remote)
  | saveDraft => Some (saveDraftEpic remote)
  | saveDraftComplete => Some (saveDraftCompleteEpic remote)
  | getGraph => Some (graphEpic remote (async_of log))
  | _ => None
  end.

(** What the epics of the slice emit in a run, and what makes the run a
    run of the store with these epics: the time stamps do not decrease and
    every event the epics emit is dispatched, so that it is in the log with
    the time of its emission. *)
Definition emitted (remote : Gateway) (preloaded : GraphState) (log : Log)
    : list (Millis * Action) :=
  let action_ := action_of log in
  let state_ := state_of preloaded log in
  emits (draftEpic remote action_ state_)
  ++ emits (saveDraftEpic remote action_ state_)
  ++ emits (saveDraftCompleteEpic remote action_ state_)
  ++ emits (setDraftEpic action_)
  ++ emits (setAlgorithmTypeEpic action_)
  ++ emits (graphEpic remote (async_of log) action_ state_)
  ++ emits (graphUserParametersEpic remote action_ state_)
  ++ emits (graphParametersEpic action_ state_).

Definition reachable (remote : Gateway) (preloaded : GraphState) (log : Log) : Prop :=
  chronological log ∧ ∀ e, e ∈ emitted remote preloaded log → e ∈ log.

(** The reading of "every action that sets the loading flag is followed by
    an event of its workflow that clears it" on one run. *)
Definition loadingReleased (remote : Gateway) (preloaded : GraphState) (log : Log) : Prop :=
  reachable remote preloaded log →
  ∀ earlier t a later epic,
    log = earlier ++ (t, a) :: later →
    workflowOf remote log a = Some epic →
    ∃ t' a', t ≤ t'
      ∧ (t', a') ∈ emits (epic (action_of log) (state_of preloaded log))
      ∧ clearsLoading a'.

(** The reading of "the one call of a burst uses the state current at the
    last trigger" on one run: the [getGraph] actions of the run form one
    burst, the last of them at [t], and the request is the one the state right
    after that action asks for. *)
Definition refetchUsesTriggerState (remote : Gateway) (preloaded : GraphState) (log : Log)
    : Prop :=
  reachable remote preloaded log →
  burst (refetchTimes log) →
  ∀ earlier t later,
    log = earlier ++ (t, getGraph) :: later →
    Forall (fun e => getGraph_match e.2 = false) later →
    ∃ tc, requests (graphEpic remote (async_of log) (action_of log) (state_of preloaded log))
          = [(tc, computeRequest (foldl graphReducer preloaded (earlier.*2 ++ [getGraph])))].

(** The reading of "a [getGraph] issued in a state calls the operation of
    that state's selector, with that state's draft id and filter set, never
    the other operation" on one run: the state is the one the last
    [getGraph] of the run is dispatched in, the call the one made 1000 ms
    after it. *)
Definition dispatchUsesTriggerState (remote : Gateway) (preloaded : GraphState) (log : Log)
    : Prop :=
  reachable remote preloaded log →
  ∀ earlier t later rq,
    log = earlier ++ (t, getGraph) :: later →
    Forall (fun e => getGraph_match e.2 = false) later →
    (t + 1000, rq) ∈ requests (graphEpic remote (async_of log) (action_of log)
                                         (state_of preloaded log)) →
    let state := foldl graphReducer preloaded earlier.*2 in
    match algorithmType state with
    | Fuzzy => rq = PostFuzzy (draft_id (draft state)) (fuzzyFilters state)
    | Dfg => rq = PostDfg (draft_id (draft state)) (dfgFilters state)
    end.


(** When the update of one parameter, sent at [t], is answered. *)
Definition replyDelay {A} (r : Reply A) : Millis :=
  match r with
  | Settles d _ => d
  | Pending => 0
  end.

Definition updateAnswered (remote : Gateway) (t : Millis) (userParam : GraphParameters)
    : Millis :=
  t + replyDelay (net_patchDraftParameter remote (p_id userParam) userParam t).

(** The requests of one save: one update per parameter, all sent at [t]. *)
Definition updateRequests (t : Millis) (ps : list GraphParameters)
    : list (Millis * Request) :=
  (fun userParam => (t, PatchDraftParameter (p_id userParam) userParam)) <$> ps.


(** The actions an epic of the slice can emit. *)
Definition emittable (a : Action) : bool :=
  match a with
  | setDraft _ | saveDraftComplete | resetDraft
  | setDfgFilters _ | setFuzzyFilters _ | getGraph
  | setGraph _ | setGraphMetrics _ | setUserParams _
  | getFailed _ | authLogout => true
  | _ => false
  end.


End Notions.


(** * Properties *)

Section ReducerProperties.
Context `{M : Models}.

(** C10. [resetGraphFilters] sets the DFG filter set to its initial value
    and leaves every other field of the state, the fuzzy filter set among
    them, as it was. *)
Theorem resetGraphFilters_frame (state : GraphState) :
  let state' := graphReducer state resetGraphFilters in
  dfgFilters state' = dfgFilters initialState
  ∧ fuzzyFilters state' = fuzzyFilters state
  ∧ isLoading state' = isLoading state
  ∧ error state' = error state
  ∧ viewId state' = viewId state
  ∧ draft state' = draft state
  ∧ graph state' = graph state
  ∧ userParams state' = userParams state
  ∧ algorithmType state' = algorithmType state
  ∧ graphMetrics state' = graphMetrics state
  ∧ nodeEdgeMetrics state' = nodeEdgeMetrics state
  ∧ isSidebar state' = isSidebar state
  ∧ graphSidebarTabIndex state' = graphSidebarTabIndex state
  ∧ width state' = width state
  ∧ graphValue state' = graphValue state
  ∧ onPercent state' = onPercent state
  ∧ nodeEdgeHighlighting state' = nodeEdgeHighlighting state.
Proof. cbn. repeat split. Qed.

(** The three outcomes of [handleError], by the status of the error. *)
Lemma handleError_401 (err : RxError) (t : Millis) :
  status err = Some 401%Z →
  handleError err t = mkObs [] [(t, authLogout)] (Completed t).
Proof. intros H. unfold handleError. rewrite bool_decide_eq_true_2; done. Qed.

Lemma handleError_no_data (err : RxError) (t : Millis) :
  status err = Some 404%Z ∨ status err = Some 500%Z →
  handleError err t = mkObs [] [(t, setGraph None)] (Completed t).
Proof.
  intros H. unfold handleError.
  rewrite bool_decide_eq_false_2 by (destruct H as [-> | ->]; discriminate).
  destruct H as [H | H].
  - rewrite (bool_decide_eq_true_2 _ H), orb_true_r. done.
  - rewrite (bool_decide_eq_true_2 _ H). done.
Qed.

Lemma handleError_other (err : RxError) (t : Millis) :
  status err ≠ Some 401%Z → status err ≠ Some 404%Z → status err ≠ Some 500%Z →
  handleError err t = mkObs [] [(t, getFailed (toString err))] (Completed t).
Proof.
  intros H1 H2 H3. unfold handleError.
  by rewrite !bool_decide_eq_false_2.
Qed.

(** C5. The error translator: on status 401 it emits [authLogout] and
    nothing else, and the reducer leaves the state as it is; on 404 or 500
    it emits [setGraph(null)], which stores no message; on any other error it
    emits [getFailed] with the text of the error, and the reducer clears the
    loading flag and stores that text. *)
Theorem handleError_translates (err : RxError) (t : Millis) (state : GraphState) :
  (status err = Some 401%Z →
     handleError err t = mkObs [] [(t, authLogout)] (Completed t)
     ∧ graphReducer state authLogout = state)
  ∧ (status err = Some 404%Z ∨ status err = Some 500%Z →
     handleError err t = mkObs [] [(t, setGraph None)] (Completed t)
     ∧ graph (graphReducer state (setGraph None)) = None
     ∧ error (graphReducer state (setGraph None)) = error state)
  ∧ (status err ≠ Some 401%Z → status err ≠ Some 404%Z → status err ≠ Some 500%Z →
     handleError err t = mkObs [] [(t, getFailed (toString err))] (Completed t)
     ∧ isLoading (graphReducer state (getFailed (toString err))) = false
     ∧ error (graphReducer state (getFailed (toString err))) = toString err).
Proof.
  split; [|split].
  - intros H. split; [by apply handleError_401 | done].
  - intros H. split; [by apply handleError_no_data | done].
  - intros H1 H2 H3. split; [by apply handleError_other | done].
Qed.

(** *** More on the reducer *)

Lemma quiet_step (state : GraphState) (a : Action) :
  (isLoading state = true → error state = "") →
  isLoading (graphReducer state a) = true → error (graphReducer state a) = "".
Proof.
  intros Hinv. destruct a; cbn; try done.
  - by destruct (isSidebar state).
  - by destruct (isSidebar state).
Qed.

(** X10. While the loading flag is set the error message is empty: no
    transition breaks this, so it holds in every state of every run that
    starts in a state where it holds. *)
Theorem loading_has_no_error (preloaded : GraphState) (actions : list Action) :
  (isLoading preloaded = true → error preloaded = "") →
  let state := foldl graphReducer preloaded actions in
  isLoading state = true → error state = "".
Proof.
  revert preloaded. induction actions as [|a actions IH]; intros preloaded Hinv; [done|].
  cbn. apply IH. by apply quiet_step.
Qed.

(** X11. What each action does to the loading flag: [createDraft],
    [saveDraft], [saveDraftComplete] and [getGraph] set it; [getFailed],
    [setDraft], [setGraph] and the three display preferences
    [changeEdgeWidth], [changeGraphValue] and [toggleOnPercent] clear it; no
    other action changes it. *)
Theorem loading_flag_by_action (a : Action) :
  match a with
  | createDraft _ | saveDraft | saveDraftComplete | getGraph =>
      ∀ state, isLoading (graphReducer state a) = true
  | getFailed _ | setDraft _ | setGraph _
  | changeEdgeWidth _ | changeGraphValue _ | toggleOnPercent _ =>
      ∀ state, isLoading (graphReducer state a) = false
  | _ => ∀ state, isLoading (graphReducer state a) = isLoading state
  end.
Proof. destruct a; intros state; cbn; try done; by destruct (isSidebar state). Qed.

(** X12. Which actions can change the data of the slice: the draft only
    [setDraft] and [resetDraft], the view id only [createDraft], the graph
    only [setGraph] and [resetGraph], the parameter list only
    [setUserParams], the DFG filter set only [setDfgFilters] and
    [resetGraphFilters], the fuzzy filter set only [setFuzzyFilters], the
    algorithm only [setAlgorithmType] and [resetGraphCommonParams]. *)
Theorem data_changed_only_by (state : GraphState) (a : Action) :
  let state' := graphReducer state a in
  match a with setDraft _ | resetDraft => True | _ => draft state' = draft state end
  ∧ match a with createDraft _ => True | _ => viewId state' = viewId state end
  ∧ match a with setGraph _ | resetGraph => True | _ => graph state' = graph state end
  ∧ match a with setUserParams _ => True | _ => userParams state' = userParams state end
  ∧ match a with
    | setDfgFilters _ | resetGraphFilters => True
    | _ => dfgFilters state' = dfgFilters state
    end
  ∧ match a with setFuzzyFilters _ => True | _ => fuzzyFilters state' = fuzzyFilters state end
  ∧ match a with
    | setAlgorithmType _ | resetGraphCommonParams => True
    | _ => algorithmType state' = algorithmType state
    end.
Proof. destruct a; cbn; repeat split; by destruct (isSidebar state). Qed.

(** X13. The sidebar: [toggleMetrics] leaves it open on the given tab,
    whatever it was; [resetNodeEdgeMetrics] leaves it closed on tab 0, with
    the node and edge metrics reset; [toggleSidebar] twice gives the state
    back. *)
Theorem sidebar_transitions (state : GraphState) (tab : Z) :
  (isSidebar (graphReducer state (toggleMetrics tab)) = true
   ∧ graphSidebarTabIndex (graphReducer state (toggleMetrics tab)) = tab)
  ∧ (isSidebar (graphReducer state resetNodeEdgeMetrics) = false
     ∧ graphSidebarTabIndex (graphReducer state resetNodeEdgeMetrics) = 0%Z
     ∧ nodeEdgeMetrics (graphReducer state resetNodeEdgeMetrics) = emptyNodeEdgeMetrics)
  ∧ graphReducer (graphReducer state toggleSidebar) toggleSidebar = state.
Proof.
  destruct state as [? ? ? ? ? ? ? ? ? ? ? sidebar ? ? ? ? ?].
  cbn. by destruct sidebar.
Qed.

End ReducerProperties.

Section EpicProperties.
Context `{M : Models}.
Implicit Types (log : Log) (preloaded state : GraphState) (remote : Gateway).
#[local] Arguments Nat.ltb : simpl never.
#[local] Arguments Nat.leb : simpl never.

(** *** The post-draft-load epic *)

Lemma setDraftEpic_stamped (n : nat) log :
  emits (setDraftEpic (stamped n log)) =
    e ← log;
    match e.2 with
    | setDraft _ =>
        [(e.1, setDfgFilters (dfgFilters initialState));
         (e.1, setFuzzyFilters (fuzzyFilters initialState));
         (e.1, getGraph)]
    | _ => []
    end.
Proof.
  revert n. induction log as [|[t a] log IH]; intros n; [done|].
  specialize (IH (S n)). cbn in IH |- *.
  destruct a; cbn; rewrite <- IH; reflexivity.
Qed.

(** C8. Every [setDraft] of a run, whatever its payload, makes the epic
    emit [setDfgFilters] and [setFuzzyFilters] with the initial filter sets
    and [getGraph], in this order and at once; no other action makes it emit
    anything. *)
Theorem setDraftEpic_three_events log :
  emits (setDraftEpic (action_of log)) =
    e ← log;
    match e.2 with
    | setDraft _ =>
        [(e.1, setDfgFilters (dfgFilters initialState));
         (e.1, setFuzzyFilters (fuzzyFilters initialState));
         (e.1, getGraph)]
    | _ => []
    end.
Proof. apply setDraftEpic_stamped. Qed.

(** *** Facts about the operators *)

Lemma filter_all_true {A} (l : list A) : List.filter (fun _ => true) l = l.
Proof. induction l as [|x l IH]; [done|]. cbn. by rewrite IH. Qed.

Lemma unsubscribedAt_None {B} (o : Obs B) : Src.unsubscribedAt None o = o.
Proof.
  destruct o as [rq es e]. unfold Src.unsubscribedAt. cbn.
  rewrite filter_all_true. by destruct e.
Qed.

Lemma switchMap_singleton {A B} (project : A → Cold B) (s : Stamp) (a : A) :
  Src.switchMap project [(s, a)] =
    match ending (project a (ms s)) with
    | Errored _ _ => project a (ms s)
    | _ => mkObs (requests (project a (ms s))) (emits (project a (ms s))) Open
    end.
Proof.
  cbn. destruct (project a (ms s)) as [rq es [|t|t e]]; cbn;
    by rewrite ?filter_all_true, ?app_nil_r, ?unsubscribedAt_None.
Qed.

(** A source whose every value projects to an observable that completes
    at once, having sent and emitted nothing. *)
Lemma switchMap_quiet {A B} (project : A → Cold B) (source : Hot A) :
  Forall (fun e => project e.2 (ms e.1) = mkObs [] [] (Completed (ms e.1))) source →
  Src.switchMap project source = mkObs [] [] Open.
Proof.
  induction 1 as [|[s a] rest Hq _ IH]; [done|].
  cbn in Hq |- *. rewrite Hq, IH.
  unfold Src.unsubscribedAt. cbn. by destruct (Src.before _ _).
Qed.

(** *** The save epic *)

(** C3. In a run in which the user-parameter list is empty whenever a
    [saveDraft] is dispatched, the save epic sends no request and emits
    nothing, [saveDraftComplete] included: [forkJoin] over no source
    completes without a value, so its result selector never runs. *)
Theorem saveDraftEpic_without_parameters remote preloaded log :
  (∀ n, userParams (state_of preloaded log n) = []) →
  saveDraftEpic remote (action_of log) (state_of preloaded log) = mkObs [] [] Open.
Proof.
  intros Hempty. unfold saveDraftEpic. apply switchMap_quiet.
  unfold Src.withLatestFrom. apply Forall_fmap, Forall_forall.
  intros [s a] _. cbn. unfold newUserParams. by rewrite Hempty.
Qed.

Lemma firstAbort_is_Some {A} (vs : list (Rx.Verdict A)) :
  Exists (fun v => ∃ te e, v = Rx.Failed te e) vs → is_Some (Rx.firstAbort vs).
Proof.
  induction 1 as [v vs (te & e & ->)|v vs _ IH].
  - cbn. destruct (Rx.firstAbort vs) as [[t' e']|]; [|by eexists].
    destruct (t' <? te); by eexists.
  - cbn. destruct IH as [[t' e'] ->].
    destruct v; try by eexists.
    all: destruct (t' <? t); by eexists.
Qed.

Lemma firstAbort_Errored {A} (vs : list (Rx.Verdict A)) (r : Millis * Ending) :
  Forall (fun v => ∀ t, v ≠ Rx.Empty t) vs →
  Rx.firstAbort vs = Some r → ∃ te e, r = (te, Errored te e).
Proof.
  intros Hvs. revert r. induction Hvs as [|v vs Hv _ IH]; intros r; [done|].
  cbn. destruct v as [t v|t|t e|].
  - apply IH.
  - by destruct (Hv t).
  - destruct (Rx.firstAbort vs) as [[t' e']|].
    + destruct (t' <? t); intros [= <-]; [by apply IH | by eexists _, _].
    + intros [= <-]. by eexists _, _.
  - apply IH.
Qed.

(** A join of sources none of which completes empty, and one of which
    fails, fails and emits nothing. *)
Lemma forkJoin_fails {A B} (observables : list (Cold A)) (sel : list A → B) (t : Millis) :
  Forall (fun o => ∀ tc, Rx.verdict (o t) ≠ Rx.Empty tc) observables →
  Exists (fun o => ∃ te e, Rx.verdict (o t) = Rx.Failed te e) observables →
  emits (Rx.forkJoin observables sel t) = []
  ∧ ∃ te e, ending (Rx.forkJoin observables sel t) = Errored te e.
Proof.
  intros Hall Hex. unfold Rx.forkJoin.
  destruct (firstAbort_is_Some (Rx.verdict <$> ((fun o => o t) <$> observables)))
    as [[ta ea] Hab].
  { rewrite <- list_fmap_compose. by apply Exists_fmap. }
  destruct (firstAbort_Errored _ _ (proj2 (Forall_fmap _ _ _)
             (proj2 (Forall_fmap _ _ _) Hall)) Hab) as (te & e & [= -> ->]).
  rewrite Hab.
  destruct observables as [|o os]; [by apply Exists_nil in Hex|].
  cbn. eauto.
Qed.

(** The update of one parameter under its timeout: it completes with the
    response, or fails. *)
Lemma timed_patch_verdict remote (id : string) (userParam : GraphParameters) (t : Millis) :
  Rx.verdict (Rx.timeout 1000 (patchDraftParameter remote id userParam) t) =
    match net_patchDraftParameter remote id userParam t with
    | Settles d (inr a) =>
        if d <? 1000 then Rx.Done (t + d) a else Rx.Failed (t + 1000) TimeoutError
    | Settles d (inl e) =>
        if d <? 1000 then Rx.Failed (t + d) e else Rx.Failed (t + 1000) TimeoutError
    | Pending => Rx.Failed (t + 1000) TimeoutError
    end.
Proof.
  unfold Rx.timeout, patchDraftParameter, ajax, Rx.verdict.
  destruct (net_patchDraftParameter remote id userParam t) as [d [e|a]|]; cbn; [| |done].
  - destruct (Nat.ltb_spec d 1000), (Nat.ltb_spec (t + d) (t + 1000)); (done || lia).
  - destruct (Nat.ltb_spec d 1000), (Nat.ltb_spec (t + d) (t + 1000)); try lia; cbn; [|done].
    destruct (Nat.ltb_spec (t + d) (t + d + 1000)); (done || lia).
Qed.

(** C4. A run with one [saveDraft]: when the update of at least one
    parameter fails or takes 1000 ms or more, the save epic emits nothing, so
    none of the outcomes of the error translator either, and its output
    stream ends with the error: nothing catches it. *)
Theorem saveDraftEpic_failure_unhandled remote preloaded (t : Millis) :
  let state := graphReducer preloaded saveDraft in
  let run := saveDraftEpic remote (action_of [(t, saveDraft)])
                           (state_of preloaded [(t, saveDraft)]) in
  (∃ userParam, userParam ∈ newUserParams state ∧ updateFails remote t userParam) →
  emits run = [] ∧ ∃ te e, ending run = Errored te e.
Proof.
  intros state run (p & Hp & Hfail). subst run. unfold saveDraftEpic.
  cbn [action_of stamped Src.filter List.filter snd saveDraft_match
       Src.withLatestFrom fmap list_fmap fst seen ms].
  rewrite switchMap_singleton.
  change (state_of preloaded [(t, saveDraft)] 1) with state. cbn [ms].
  match goal with |- context [ending (Rx.forkJoin ?os ?sel t)] =>
    destruct (forkJoin_fails os sel t) as (Hem & te & e & Hend) end.
  - apply Forall_fmap, Forall_forall. intros q _ tc. cbn.
    rewrite timed_patch_verdict.
    destruct (net_patchDraftParameter _ _ _ _) as [d [?|?]|]; [| |done];
      by destruct (d <? 1000).
  - apply Exists_fmap, Exists_exists. exists p. split; [done|]. cbn.
    rewrite timed_patch_verdict. unfold updateFails in Hfail.
    destruct (net_patchDraftParameter _ _ _ _) as [d [?|?]|]; [| |by eauto].
    + destruct (d <? 1000); eauto.
    + destruct (Nat.ltb_spec d 1000); [lia | eauto].
  - rewrite Hend. split; [done | eauto].
Qed.

(** *** Projection of the parameters and back *)

Lemma fromEntries_snoc (entries : list (string * JsValue)) (k : string) (v : JsValue) :
  fromEntries (entries ++ [(k, v)]) = <[k := v]> (fromEntries entries).
Proof. unfold fromEntries. by rewrite foldl_app. Qed.

(** A key reads the value of its last entry. *)
Lemma lookup_fromEntries (entries : list (string * JsValue)) (i : nat) (k : string) (v : JsValue) :
  entries !! i = Some (k, v) →
  (∀ j v', i < j → entries !! j = Some (k, v') → v' = v) →
  fromEntries entries !! k = Some v.
Proof.
  revert i. induction entries as [|[k' v'] entries IH] using rev_ind; intros i Hi Hlater.
  { done. }
  rewrite fromEntries_snoc.
  destruct (decide (i = length entries)) as [->|Hne].
  - rewrite lookup_app_r, Nat.sub_diag in Hi by done. injection Hi as -> ->.
    by rewrite lookup_insert_eq.
  - assert (i < length entries) as Hlt.
    { apply lookup_lt_Some in Hi. rewrite length_app in Hi. cbn in Hi. lia. }
    rewrite lookup_app_l in Hi by done.
    destruct (decide (k' = k)) as [->|Hk].
    + rewrite lookup_insert_eq. f_equal. apply (Hlater (length entries)); [done|].
      by rewrite lookup_app_r, Nat.sub_diag.
    + rewrite lookup_insert_ne by done. apply (IH i); [done|].
      intros j v'' Hj Hjv. apply (Hlater j); [done|].
      rewrite lookup_app_l; [done|]. by apply lookup_lt_Some in Hjv.
Qed.

Lemma projected_fields preloaded (ps : list GraphParameters) :
  userParams (projected preloaded ps) = ps
  ∧ dfgFilters (projected preloaded ps)
      = fromEntries ((fun p => (p_key p, p_value p)) <$> ps)
  ∧ fuzzyFilters (projected preloaded ps)
      = fromEntries ((fun p => (p_key p, p_value p)) <$> ps).
Proof. done. Qed.

(** A parameter reads its own value back when no later parameter of the
    list has its key with another value. *)
Lemma roundTrip_lookup preloaded (ps : list GraphParameters) (i : nat)
    (p : GraphParameters) :
  ps !! i = Some p →
  (∀ j q, i < j → ps !! j = Some q → p_key q = p_key p → p_value q = p_value p) →
  roundTrip preloaded ps !! i = Some p.
Proof.
  intros Hi Hlater. unfold roundTrip, newUserParams.
  destruct (projected_fields preloaded ps) as (-> & -> & ->).
  rewrite list_lookup_fmap, Hi. cbn. f_equal.
  assert (prop (fromEntries ((fun p => (p_key p, p_value p)) <$> ps)) (p_key p)
          = p_value p) as ->.
  { unfold prop. erewrite (lookup_fromEntries _ i); [done| |].
    - by rewrite list_lookup_fmap, Hi.
    - intros j v' Hj Hjv. rewrite list_lookup_fmap in Hjv.
      destruct (ps !! j) as [q|] eqn:Hq; [|done]. cbn in Hjv.
      injection Hjv as Hk <-. by apply (Hlater j). }
  destruct p. unfold withValue. cbn. by destruct (bool_decide _).
Qed.

(** With pairwise distinct keys the whole list comes back. *)
Corollary roundTrip_distinct_keys preloaded (ps : list GraphParameters) :
  NoDup (p_key <$> ps) → roundTrip preloaded ps = ps.
Proof.
  intros Hnd. apply list_eq. intros i.
  destruct (ps !! i) as [p|] eqn:Hi.
  - apply roundTrip_lookup; [done|]. intros j q Hlt Hj Hk. exfalso.
    assert (i = j); [|lia].
    eapply (NoDup_lookup _ _ _ _ Hnd); rewrite list_lookup_fmap.
    + by rewrite Hi.
    + rewrite Hj. cbn. by rewrite Hk.
  - apply lookup_ge_None. apply lookup_ge_None in Hi.
    unfold roundTrip, newUserParams.
    destruct (projected_fields preloaded ps) as (-> & _). by rewrite length_fmap.
Qed.

(** C9 (amended). Projecting a parameter list into the filter sets and
    merging them back gives every parameter its own value back, provided no
    later parameter of the list has the same key with another value. *)
Theorem roundTrip_preserves preloaded (ps : list GraphParameters) (i : nat)
    (p : GraphParameters) :
  ps !! i = Some p →
  (∀ j q, i < j → ps !! j = Some q → p_key q = p_key p → p_value q = p_value p) →
  roundTrip preloaded ps !! i = Some p.
Proof. apply roundTrip_lookup. Qed.

(** *** The action stream and the state observable *)

Lemma stamped_app (n : nat) (g1 g2 : Log) :
  stamped n (g1 ++ g2) = stamped n g1 ++ stamped (n + length g1) g2.
Proof.
  revert n. induction g1 as [|e g1 IH]; intros n; cbn.
  - by rewrite Nat.add_0_r.
  - rewrite IH. by rewrite Nat.add_succ_r.
Qed.

Lemma stamped_split (n : nat) log (pre post : Hot Action) (x : Stamp * Action) :
  stamped n log = pre ++ x :: post →
  ∃ g1 e g2, log = g1 ++ e :: g2
    ∧ pre = stamped n g1
    ∧ x = ({| ms := e.1; seen := S (n + length g1) |}, e.2)
    ∧ post = stamped (S (n + length g1)) g2.
Proof.
  revert n log. induction pre as [|y pre IH]; intros n [|e log] H; try discriminate.
  - cbn in H. injection H as <- <-. exists [], e, log. by rewrite Nat.add_0_r.
  - cbn in H. injection H as <- H.
    destruct (IH _ _ H) as (g1 & e' & g2 & -> & -> & -> & ->).
    exists (e :: g1), e', g2. cbn. by rewrite Nat.add_succ_r.
Qed.

Lemma filter_split {A} (p : A → bool) (l pre post : list A) (x : A) :
  List.filter p l = pre ++ x :: post →
  ∃ l1 l2, l = l1 ++ x :: l2
    ∧ List.filter p l1 = pre ∧ List.filter p l2 = post ∧ p x = true.
Proof.
  revert pre. induction l as [|y l IH]; intros pre H.
  { by destruct pre. }
  cbn in H. destruct (p y) eqn:Hy.
  - destruct pre as [|z pre]; cbn in H; injection H as -> H.
    + exists [], l. by rewrite Hy.
    + destruct (IH _ H) as (l1 & l2 & -> & <- & <- & Hx).
      exists (z :: l1), l2. cbn. by rewrite Hy.
  - destruct (IH _ H) as (l1 & l2 & -> & <- & <- & Hx).
    exists (y :: l1), l2. cbn. by rewrite Hy.
Qed.

Lemma filter_none {A} (p : A → bool) (l : list A) :
  Forall (fun x => p x = false) l → List.filter p l = [].
Proof. induction 1 as [|x l Hx _ IH]; [done|]. cbn. by rewrite Hx. Qed.

Lemma state_of_snoc preloaded (earlier later : Log) (e : Millis * Action) :
  state_of preloaded (earlier ++ e :: later) (S (length earlier))
    = graphReducer (foldl graphReducer preloaded earlier.*2) e.2.
Proof.
  unfold state_of. rewrite fmap_app, fmap_cons.
  rewrite (cons_middle e.2), app_assoc.
  replace (S (length earlier)) with (length (earlier.*2 ++ [e.2]))
    by (rewrite length_app, length_fmap; cbn; lia).
  by rewrite take_app_length, foldl_app.
Qed.

(** In a chronological run the timer set for [fire] finds the store after
    the actions dispatched before [fire]. *)
Lemma take_async_of log (fire : Millis) :
  chronological log →
  take (async_of log fire) log = List.filter (fun e => e.1 <? fire) log.
Proof.
  unfold async_of. induction 1 as [|e log _ IH Hle]; [done|]. cbn.
  destruct (Nat.ltb_spec e.1 fire) as [Hlt|Hge]; cbn.
  - by rewrite IH.
  - rewrite filter_none; [done|].
    eapply Forall_impl; [exact Hle|]. intros e' He'. cbn in He'.
    apply Nat.ltb_ge. lia.
Qed.

Lemma state_of_async_of preloaded log (fire : Millis) :
  chronological log →
  state_of preloaded log (async_of log fire) = stateBefore preloaded log fire.
Proof.
  intros Hc. unfold state_of, stateBefore.
  by rewrite <- fmap_take, take_async_of.
Qed.

Lemma filter_all {A} (p : A → bool) (l : list A) :
  Forall (fun x => p x = true) l → List.filter p l = l.
Proof. induction 1 as [|x l Hx _ IH]; [done|]. cbn. by rewrite Hx, IH. Qed.

(** When nothing is dispatched between an action and a timer, the state
    the timer finds is the state right after the action. *)
Lemma stateBefore_quiet preloaded (earlier later : Log) (t fire : Millis) (a : Action) :
  chronological (earlier ++ (t, a) :: later) →
  t < fire →
  Forall (fun e => fire ≤ e.1) later →
  stateBefore preloaded (earlier ++ (t, a) :: later) fire
  = foldl graphReducer preloaded (earlier.*2 ++ [a]).
Proof.
  intros Hc Ht Hlater. unfold stateBefore.
  rewrite List.filter_app. cbn [List.filter fst].
  apply Nat.ltb_lt in Ht as Ht'. rewrite Ht'.
  rewrite (filter_none _ later), (filter_all _ earlier).
  - by rewrite fmap_app.
  - apply Forall_forall. intros e He. apply Nat.ltb_lt.
    pose proof (StronglySorted_app_1_elem_of _ _ _ e (t, a) Hc He) as Hle.
    cbn in Hle. specialize (Hle ltac:(by left)). lia.
  - eapply Forall_impl; [exact Hlater|]. intros e He. cbn in He.
    apply Nat.ltb_ge. lia.
Qed.

(** *** [switchMap] and [debounceTime] *)

(** Whatever [switchMap] emits, the observable of one value of the source
    emitted, before the next value of the source arrived. *)
Lemma switchMap_emits_inv {A B} (project : A → Cold B) (source : Hot A)
    (t : Millis) (b : B) :
  (t, b) ∈ emits (Src.switchMap project source) →
  ∃ pre s a post, source = pre ++ (s, a) :: post
    ∧ (t, b) ∈ emits (project a (ms s))
    ∧ Src.before ((fun e => ms e.1) <$> head post) t = true.
Proof.
  induction source as [|[s a] rest IH].
  { cbn. by intros ?%elem_of_nil. }
  cbn [Src.switchMap].
  set (inner := Src.unsubscribedAt _ _).
  assert ((t, b) ∈ emits inner →
          ∃ pre s' a' post, (s, a) :: rest = pre ++ (s', a') :: post
            ∧ (t, b) ∈ emits (project a' (ms s'))
            ∧ Src.before ((fun e => ms e.1) <$> head post) t = true) as Hinner.
  { subst inner. cbn. rewrite list_elem_of_In, filter_In, <- list_elem_of_In.
    intros [Hin Hcut]. by exists [], s, a, rest. }
  assert ((t, b) ∈ emits (Src.switchMap project rest) →
          ∃ pre s' a' post, (s, a) :: rest = pre ++ (s', a') :: post
            ∧ (t, b) ∈ emits (project a' (ms s'))
            ∧ Src.before ((fun e => ms e.1) <$> head post) t = true) as Hrest.
  { intros Hin. destruct (IH Hin) as (pre & s' & a' & post & -> & ? & ?).
    by exists ((s, a) :: pre), s', a', post. }
  destruct (ending inner); cbn; rewrite ?elem_of_app; intuition.
Qed.

(** When no projected observable can fail, what the observable of the
    last value of the source emits is emitted. *)
Lemma switchMap_last {A B} (project : A → Cold B) (source : Hot A)
    (s : Stamp) (a : A) (t : Millis) (b : B) :
  (∀ x t0 te e, ending (project x t0) ≠ Errored te e) →
  (t, b) ∈ emits (project a (ms s)) →
  (t, b) ∈ emits (Src.switchMap project (source ++ [(s, a)])).
Proof.
  intros Hok Hin. induction source as [|[s0 a0] rest IH].
  - cbn [app]. rewrite switchMap_singleton. by destruct (ending _).
  - cbn [app Src.switchMap].
    set (inner := Src.unsubscribedAt _ _).
    assert (∀ te e, ending inner ≠ Errored te e) as Hinner.
    { subst inner. unfold Src.unsubscribedAt. cbn. intros te e.
      pose proof (Hok a0 (ms s0)) as Hok0.
      destruct (ending (project a0 (ms s0))); [done| |];
        destruct (Src.before _ _); congruence. }
    destruct (ending inner) eqn:He; cbn; rewrite ?elem_of_app; [by right|by right|].
    by destruct (Hinner t0 e).
Qed.

Lemma burst_tail (t : Millis) (times : list Millis) : burst (t :: times) → burst times.
Proof. intros Hb i t1 t2 H1 H2. by apply (Hb (S i)). Qed.

(** Of a burst, only the last value leaves [debounceTime], 1000 ms after
    it arrived. *)
Lemma debounceTime_burst {A} (async : Millis → nat) (source : Hot A) (s : Stamp) (a : A) :
  burst ((fun e => ms e.1) <$> source) →
  last source = Some (s, a) →
  Src.debounceTime 1000 async source
    = [({| ms := ms s + 1000; seen := async (ms s + 1000) |}, a)].
Proof.
  induction source as [|[s0 a0] rest IH]; [done|]. intros Hb Hlast.
  destruct rest as [|[s1 a1] rest'].
  - cbn in Hlast. by injection Hlast as -> ->.
  - cbn [Src.debounceTime].
    assert (ms s1 < ms s0 + 1000) as Hlt by (by apply (Hb 0)).
    apply Nat.ltb_lt in Hlt. rewrite Hlt.
    apply IH; [by apply burst_tail in Hb | done].
Qed.

(** The last value of the source always leaves [debounceTime]. *)
Lemma debounceTime_last {A} (due : nat) (async : Millis → nat) (source : Hot A)
    (s : Stamp) (a : A) :
  ∃ pre, Src.debounceTime due async (source ++ [(s, a)])
         = pre ++ [({| ms := ms s + due; seen := async (ms s + due) |}, a)].
Proof.
  induction source as [|[s0 a0] rest IH].
  - by exists [].
  - destruct IH as [pre IH]. cbn [app Src.debounceTime]. rewrite IH.
    destruct (rest ++ [(s, a)]) as [|[s1 a1] l] eqn:Hl; [by destruct rest|].
    destruct (ms s1 <? ms s0 + due); [by exists pre|].
    by eexists (_ :: pre).
Qed.

Lemma refetch_times (n : nat) log :
  (fun e => ms e.1) <$> Src.filter getGraph_match (stamped n log) = refetchTimes log.
Proof.
  unfold refetchTimes, Src.filter. revert n.
  induction log as [|[t a] log IH]; intros n; [done|]. cbn.
  destruct (getGraph_match a); cbn; by rewrite IH.
Qed.

(** *** The draft-creation epic *)

Lemma handleError_of (err : RxError) (t : Millis) :
  ∃ a, handleError err t = mkObs [] [(t, a)] (Completed t).
Proof.
  unfold handleError.
  destruct (bool_decide _); [by eexists|].
  destruct (_ || _); by eexists.
Qed.

(** One call of the draft-creation workflow. *)
Lemma draft_call remote (v : string) (t0 : Millis) :
  (postViewDraft remote v
   |> Rx.map (fun data => setDraft data)
   |> Rx.catchError (fun err => handleError err)) t0
  = match net_postViewDraft remote v t0 with
    | Settles d (inr data) =>
        mkObs [(t0, PostViewDraft v)] [(t0 + d, setDraft data)] (Completed (t0 + d))
    | Settles d (inl err) =>
        mkObs [(t0, PostViewDraft v)] (emits (handleError err (t0 + d))) (Completed (t0 + d))
    | Pending => mkObs [(t0, PostViewDraft v)] [] Open
    end.
Proof.
  unfold Rx.catchError, Rx.map, postViewDraft, ajax.
  destruct (net_postViewDraft remote v t0) as [d [err|data]|]; cbn; [|done|done].
  destruct (handleError_of err (t0 + d)) as [a ->]. done.
Qed.

(** In a chronological run the first matching action of a stretch is not
    later than any matching action of the stretch. *)
Lemma head_filter_stamped (p : Action → bool) (n : nat) log (tj : Millis) (a : Action) :
  chronological log → (tj, a) ∈ log → p a = true →
  ∃ h, head (Src.filter p (stamped n log)) = Some h ∧ ms h.1 ≤ tj.
Proof.
  intros Hc. revert n. induction Hc as [|e log _ IH Hle]; intros n Hin Hp.
  { by apply elem_of_nil in Hin. }
  cbn. destruct (p (snd _)) eqn:He.
  - eexists. split; [reflexivity|]. cbn.
    apply elem_of_cons in Hin as [<-|Hin]; [cbn; lia|].
    rewrite Forall_forall in Hle. by apply (Hle (tj, a)).
  - apply elem_of_cons in Hin as [<-|Hin]; [cbn in He; congruence|].
    by apply IH.
Qed.

Lemma chronological_later (earlier later : Log) (e : Millis * Action) :
  chronological (earlier ++ e :: later) → chronological later.
Proof.
  unfold chronological. intros Hc.
  apply StronglySorted_app_1_r in Hc. by apply StronglySorted_inv in Hc as [? _].
Qed.

(** The triggers of an epic that filters the action stream and reads the
    state: each is an action of the run that matches, with the state right
    after it, and the triggers after it are the matching actions after it. *)
Lemma triggers_split (p : Action → bool) preloaded log
    (pre post : Hot (Action * GraphState)) (s : Stamp) (x : Action * GraphState) :
  Src.withLatestFrom (state_of preloaded log) (Src.filter p (action_of log))
    = pre ++ (s, x) :: post →
  ∃ earlier e later, log = earlier ++ e :: later
    ∧ p e.2 = true
    ∧ ms s = e.1
    ∧ x = (e.2, graphReducer (foldl graphReducer preloaded earlier.*2) e.2)
    ∧ (fun y => ms y.1) <$> head post
      = (fun y => ms y.1) <$> head (Src.filter p (stamped (S (length earlier)) later)).
Proof.
  unfold Src.withLatestFrom, action_of. intros H.
  apply fmap_app_inv in H as (l1 & l2' & -> & Hpost & H).
  symmetry in Hpost. apply fmap_cons_inv in Hpost as (y & l2 & Hy & -> & ->).
  apply filter_split in H as (k1 & k2 & H & _ & <- & Hp).
  apply stamped_split in H as (g1 & e & g2 & -> & _ & -> & ->).
  cbn in *. injection Hy as -> ->.
  exists g1, e, g2. repeat split; try done.
  - f_equal. apply state_of_snoc.
  - unfold Src.filter. by destruct (List.filter _ _).
Qed.

(** C1. Every event the draft-creation epic emits is the outcome of the
    call made for a [createDraft] after which no other [createDraft] was
    dispatched until the response arrived: the response to a call that a
    later trigger has superseded produces no event. *)
Theorem draftEpic_latest_wins remote preloaded log (t : Millis) (a : Action) :
  chronological log →
  (t, a) ∈ emits (draftEpic remote (action_of log) (state_of preloaded log)) →
  ∃ earlier ti v later d r,
    log = earlier ++ (ti, createDraft v) :: later
    ∧ net_postViewDraft remote v ti = Settles d r
    ∧ t = ti + d
    ∧ match r with
      | inr data => a = setDraft data
      | inl err => (t, a) ∈ emits (handleError err t)
      end
    ∧ ∀ tj v', (tj, createDraft v') ∈ later → t < tj.
Proof.
  intros Hc Hin. unfold draftEpic in Hin.
  apply switchMap_emits_inv in Hin as (pre & s & x & post & Hsrc & Hin & Hcut).
  apply triggers_split in Hsrc as (earlier & [ti act] & later & -> & Hp & Hs & -> & Hhead).
  cbn in Hp, Hs. destruct act as [|v| | | | | | | | | | | | | | | | | | | | | | | | | ];
    try discriminate Hp.
  rewrite Hs, draft_call in Hin.
  cbn [snd viewId graphReducer set_error set_viewId set_isLoading] in Hin.
  assert (∀ tj v', (tj, createDraft v') ∈ later → t < tj) as Hlater.
  { intros tj v' Hj.
    destruct (head_filter_stamped createDraft_match (S (length earlier)) later
                tj (createDraft v')) as (h & Hh & Hle);
      [by eapply chronological_later | done | done |].
    rewrite Hhead, Hh in Hcut. cbn in Hcut. apply Nat.ltb_lt in Hcut. lia. }
  destruct (net_postViewDraft remote v ti) as [d [err|data]|] eqn:Hreply;
    cbn [emits] in Hin.
  - destruct (handleError_of err (ti + d)) as [a' Ha']. rewrite Ha' in Hin. cbn in Hin.
    apply list_elem_of_singleton in Hin as [= -> ->].
    exists earlier, ti, v, later, d, (inl err). repeat split; try done.
    rewrite Ha'. cbn. by apply list_elem_of_singleton.
  - apply list_elem_of_singleton in Hin as [= -> ->].
    by exists earlier, ti, v, later, d, (inr data).
  - by apply elem_of_nil in Hin.
Qed.

(** *** The graph-refetch epic *)

(** One call of the graph-refetch workflow. *)
Lemma graph_call remote state (t0 : Millis) :
  ((match algorithmType state with
    | Dfg => postDfg remote (draft_id (draft state)) (dfgFilters state)
    | Fuzzy => postFuzzy remote (draft_id (draft state)) (fuzzyFilters state)
    end)
   |> Rx.mergeMap (fun data => [setGraph (Some data); setGraphMetrics (metrics data)])
   |> Rx.catchError handleError) t0
  = match computeReply remote state t0 with
    | Settles d (inr data) =>
        mkObs [(t0, computeRequest state)]
              [(t0 + d, setGraph (Some data)); (t0 + d, setGraphMetrics (metrics data))]
              (Completed (t0 + d))
    | Settles d (inl err) =>
        mkObs [(t0, computeRequest state)] (emits (handleError err (t0 + d)))
              (Completed (t0 + d))
    | Pending => mkObs [(t0, computeRequest state)] [] Open
    end.
Proof.
  unfold computeReply, computeRequest, Rx.catchError, Rx.mergeMap, postDfg, postFuzzy, ajax.
  destruct (algorithmType state).
  - destruct (net_postDfg _ _ _ _) as [d [err|data]|]; cbn; [|done|done].
    by destruct (handleError_of err (t0 + d)) as [a ->].
  - destruct (net_postFuzzy _ _ _ _) as [d [err|data]|]; cbn; [|done|done].
    by destruct (handleError_of err (t0 + d)) as [a ->].
Qed.

(** A run whose [getGraph] actions form one burst, the last of them at
    [t]: the epic makes one call, at [t + 1000], for the state the timer
    finds, and emits what that call leads to. *)
Lemma graphEpic_burst remote preloaded log (t : Millis) :
  burst (refetchTimes log) → last (refetchTimes log) = Some t →
  let fire := t + 1000 in
  let state := state_of preloaded log (async_of log fire) in
  graphEpic remote (async_of log) (action_of log) (state_of preloaded log)
  = match computeReply remote state fire with
    | Settles d (inr data) =>
        mkObs [(fire, computeRequest state)]
              [(fire + d, setGraph (Some data)); (fire + d, setGraphMetrics (metrics data))]
              Open
    | Settles d (inl err) =>
        mkObs [(fire, computeRequest state)] (emits (handleError err (fire + d))) Open
    | Pending => mkObs [(fire, computeRequest state)] [] Open
    end.
Proof.
  intros Hb Hlast fire state. unfold graphEpic, action_of.
  rewrite <- (refetch_times 0) in Hb, Hlast.
  rewrite fmap_last in Hlast.
  destruct (last (Src.filter getGraph_match (stamped 0 log))) as [[s a]|] eqn:Hl;
    [|done].
  cbn in Hlast. injection Hlast as Hs.
  rewrite (debounceTime_burst _ _ s a Hb Hl), Hs.
  cbn [Src.withLatestFrom fmap list_fmap fst snd seen].
  rewrite switchMap_singleton. cbn [ms].
  fold fire. fold state. rewrite graph_call.
  by destruct (computeReply remote state fire) as [d [err|data]|].
Qed.

(** C2 (amended). A chronological run whose [getGraph] actions form one
    burst, each less than 1000 ms after the one before and the last at [t]:
    the epic sends exactly one graph request, at [t + 1000], and the request
    carries the algorithm, draft id and filter set of the state after all the
    actions dispatched before [t + 1000], those dispatched after the last
    trigger included. *)
Theorem graphEpic_debounced_burst remote preloaded log (t : Millis) :
  chronological log →
  burst (refetchTimes log) →
  last (refetchTimes log) = Some t →
  requests (graphEpic remote (async_of log) (action_of log) (state_of preloaded log))
  = [(t + 1000, computeRequest (stateBefore preloaded log (t + 1000)))].
Proof.
  intros Hc Hb Hlast. rewrite (graphEpic_burst _ _ _ t Hb Hlast).
  rewrite (state_of_async_of _ _ _ Hc).
  by destruct (computeReply _ _ _) as [d [err|data]|].
Qed.

(** *** Every request of the graph epic *)

Lemma switchMap_requests_inv {A B} (project : A → Cold B) (source : Hot A)
    (tc : Millis) (rq : Request) :
  (tc, rq) ∈ requests (Src.switchMap project source) →
  ∃ s a, (s, a) ∈ source ∧ (tc, rq) ∈ requests (project a (ms s)).
Proof.
  induction source as [|[s a] rest IH].
  { cbn. by intros ?%elem_of_nil. }
  cbn [Src.switchMap]. set (inner := Src.unsubscribedAt _ _).
  assert (requests inner = requests (project a (ms s))) as Hrq by done.
  assert ((tc, rq) ∈ requests inner ∨ (tc, rq) ∈ requests (Src.switchMap project rest) →
          ∃ s' a', (s', a') ∈ (s, a) :: rest ∧ (tc, rq) ∈ requests (project a' (ms s')))
    as Hcases.
  { intros [Hin|Hin].
    - exists s, a. rewrite <- Hrq. split; [apply elem_of_cons; by left | done].
    - destruct (IH Hin) as (s' & a' & ? & ?). exists s', a'.
      split; [apply elem_of_cons; by right | done]. }
  destruct (ending inner); cbn; rewrite ?elem_of_app; auto.
Qed.

Lemma debounceTime_elem {A} (due : nat) (async : Millis → nat) (source : Hot A)
    (s : Stamp) (a : A) :
  (s, a) ∈ Src.debounceTime due async source →
  ∃ s0, (s0, a) ∈ source ∧ s = {| ms := ms s0 + due; seen := async (ms s0 + due) |}.
Proof.
  induction source as [|[s0 a0] rest IH].
  { cbn. by intros ?%elem_of_nil. }
  cbn [Src.debounceTime].
  assert ((s, a) ∈ Src.debounceTime due async rest →
          ∃ s1, (s1, a) ∈ (s0, a0) :: rest
                ∧ s = {| ms := ms s1 + due; seen := async (ms s1 + due) |}) as Hlater.
  { intros Hin. destruct (IH Hin) as (s1 & ? & ?). exists s1.
    split; [apply elem_of_cons; by right | done]. }
  assert ((s, a) = ({| ms := ms s0 + due; seen := async (ms s0 + due) |}, a0) →
          ∃ s1, (s1, a) ∈ (s0, a0) :: rest
                ∧ s = {| ms := ms s1 + due; seen := async (ms s1 + due) |}) as Hhere.
  { intros [= -> ->]. exists s0. split; [apply elem_of_cons; by left | done]. }
  destruct rest as [|[s1 a1] rest'].
  - intros Hin%list_elem_of_singleton. auto.
  - destruct (ms s1 <? ms s0 + due); [done|].
    intros [Hin|Hin]%elem_of_cons; auto.
Qed.

Lemma stamped_elem (n : nat) log (s : Stamp) (a : Action) :
  (s, a) ∈ stamped n log → (ms s, a) ∈ log.
Proof.
  revert n. induction log as [|[t a0] log IH]; intros n; cbn.
  { by intros ?%elem_of_nil. }
  intros [[= -> ->]|Hin]%elem_of_cons; [by left|].
  right. by apply (IH (S n)).
Qed.

(** X8. In every run, every request the graph epic sends leaves 1000 ms after
    a [getGraph] and is the request that the state at that moment asks for:
    the fuzzy one when the selector is [Fuzzy], the DFG one when it is
    [Dfg]. *)
Lemma graphEpic_requests remote preloaded log (tc : Millis) (rq : Request) :
  (tc, rq) ∈ requests (graphEpic remote (async_of log) (action_of log)
                                 (state_of preloaded log)) →
  ∃ t, (t, getGraph) ∈ log
       ∧ tc = t + 1000
       ∧ rq = computeRequest (state_of preloaded log (async_of log tc)).
Proof.
  unfold graphEpic. intros Hin.
  apply switchMap_requests_inv in Hin as (s & [a state] & Hsrc & Hin).
  unfold Src.withLatestFrom in Hsrc.
  apply list_elem_of_fmap in Hsrc as ([s' a'] & [= -> -> ->] & Hsrc).
  apply debounceTime_elem in Hsrc as (s0 & Hsrc & ->).
  unfold Src.filter in Hsrc.
  apply list_elem_of_In, filter_In in Hsrc as [Hsrc Hmatch].
  apply list_elem_of_In, stamped_elem in Hsrc.
  cbn in Hmatch. destruct a'; try discriminate Hmatch.
  cbn [ms seen fst snd] in Hin. rewrite graph_call in Hin.
  exists (ms s0).
  assert ((tc, rq) = (ms s0 + 1000,
            computeRequest (state_of preloaded log (async_of log (ms s0 + 1000)))))
    as [= -> ->]; [|done].
  destruct (computeReply _ _ _) as [d [err|data]|];
    by apply list_elem_of_singleton in Hin.
Qed.

(** *** The loading flag *)

Lemma handleError_clears (err : RxError) (t : Millis) :
  status err ≠ Some 401%Z →
  ∃ a, handleError err t = mkObs [] [(t, a)] (Completed t) ∧ clearsLoading a.
Proof.
  intros H. unfold handleError. rewrite bool_decide_eq_false_2 by done.
  destruct (_ || _); by eexists.
Qed.

Lemma Forall_stamped (p : Action → bool) (n : nat) log :
  Forall (fun e => p e.2 = false) log →
  Forall (fun x => p x.2 = false) (stamped n log).
Proof.
  intros H. revert n. induction H as [|e log He _ IH]; intros n; cbn; by constructor.
Qed.

(** The last matching action of a run is the last trigger. *)
Lemma triggers_last (p : Action → bool) (earlier later : Log) (e : Millis * Action) :
  p e.2 = true →
  Forall (fun e' => p e'.2 = false) later →
  Src.filter p (action_of (earlier ++ e :: later))
  = Src.filter p (action_of earlier)
    ++ [({| ms := e.1; seen := S (length earlier) |}, e.2)].
Proof.
  intros Hp Hlater. unfold action_of, Src.filter.
  rewrite stamped_app, List.filter_app. cbn. rewrite Hp.
  by rewrite (filter_none _ _ (Forall_stamped p _ _ Hlater)).
Qed.

(** The call made for the last [createDraft] of a run: when it settles,
    not with status 401, the epic emits an event that clears the loading
    flag. *)
Lemma draftEpic_clears remote preloaded (earlier later : Log) (t : Millis) (v : string)
    (d : Millis) (r : RxError + ViewDraft) :
  Forall (fun e => createDraft_match e.2 = false) later →
  net_postViewDraft remote v t = Settles d r →
  authorized r →
  let log := earlier ++ (t, createDraft v) :: later in
  ∃ a, (t + d, a) ∈ emits (draftEpic remote (action_of log) (state_of preloaded log))
       ∧ clearsLoading a.
Proof.
  intros Hlater Hreply Hr log. unfold draftEpic. subst log.
  rewrite (triggers_last createDraft_match earlier later (t, createDraft v)) by done.
  unfold Src.withLatestFrom. rewrite fmap_app. cbn [fmap list_fmap fst snd seen].
  rewrite state_of_snoc.
  assert (∃ a, (t + d, a) ∈ emits
            ((postViewDraft remote v
              |> Rx.map (fun data => setDraft data)
              |> Rx.catchError (fun err => handleError err)) t)
          ∧ clearsLoading a) as (a & Hin & Ha).
  { rewrite draft_call, Hreply. destruct r as [err|data]; cbn.
    - destruct (handleError_clears err (t + d) Hr) as (a & -> & Ha).
      exists a. split; [by apply list_elem_of_singleton | done].
    - exists (setDraft data). split; [by apply list_elem_of_singleton | done]. }
  exists a. split; [|done].
  apply switchMap_last; [|done].
  intros [a0 st] t0 te e. rewrite draft_call.
  by destruct (net_postViewDraft remote (viewId st) t0) as [? [?|?]|].
Qed.

(** The same for the call made for the last [getGraph] of a run, 1000 ms
    after it. *)
Lemma graphEpic_clears remote preloaded (earlier later : Log) (t : Millis)
    (d : Millis) (r : RxError + Graph) :
  Forall (fun e => getGraph_match e.2 = false) later →
  let log := earlier ++ (t, getGraph) :: later in
  let fire := t + 1000 in
  computeReply remote (state_of preloaded log (async_of log fire)) fire = Settles d r →
  authorized r →
  ∃ a, (fire + d, a)
         ∈ emits (graphEpic remote (async_of log) (action_of log) (state_of preloaded log))
       ∧ clearsLoading a.
Proof.
  intros Hlater log fire Hreply Hr. unfold graphEpic.
  pose proof (triggers_last getGraph_match earlier later (t, getGraph) eq_refl Hlater)
    as Htr.
  cbn [fst snd] in Htr.
  change (earlier ++ (t, getGraph) :: later) with log in Htr. rewrite Htr. clear Htr.
  destruct (debounceTime_last 1000 (async_of log)
              (Src.filter getGraph_match (action_of earlier))
              {| ms := t; seen := S (length earlier) |} getGraph) as [pre ->].
  unfold Src.withLatestFrom. rewrite fmap_app. cbn [fmap list_fmap fst snd seen ms].
  fold fire.
  set (state := state_of preloaded log (async_of log fire)) in *.
  assert (∃ a, (fire + d, a) ∈ emits
            (((match algorithmType state with
               | Dfg => postDfg remote (draft_id (draft state)) (dfgFilters state)
               | Fuzzy => postFuzzy remote (draft_id (draft state)) (fuzzyFilters state)
               end)
              |> Rx.mergeMap (fun data => [setGraph (Some data); setGraphMetrics (metrics data)])
              |> Rx.catchError handleError) fire)
          ∧ clearsLoading a) as (a & Hin & Ha).
  { rewrite graph_call, Hreply. destruct r as [err|data]; cbn.
    - destruct (handleError_clears err (fire + d) Hr) as (a & -> & Ha).
      exists a. split; [by apply list_elem_of_singleton | done].
    - exists (setGraph (Some data)). split; [apply elem_of_cons; by left | done]. }
  exists a. split; [|done].
  apply (switchMap_last _ _ {| ms := fire; seen := async_of log fire |}); [|done].
  intros [a0 st] t0 te e. rewrite graph_call.
  by destruct (computeReply remote st t0) as [? [?|?]|].
Qed.

(** One call of the save-completion workflow. *)
Lemma commit_call remote (draftId : option string) (t0 : Millis) :
  (postDraft remote draftId
   |> Rx.map (fun _ => resetDraft)
   |> Rx.catchError handleError) t0
  = match net_postDraft remote draftId t0 with
    | Settles d (inr _) =>
        mkObs [(t0, PostDraft draftId)] [(t0 + d, resetDraft)] (Completed (t0 + d))
    | Settles d (inl err) =>
        mkObs [(t0, PostDraft draftId)] (emits (handleError err (t0 + d)))
              (Completed (t0 + d))
    | Pending => mkObs [(t0, PostDraft draftId)] [] Open
    end.
Proof.
  unfold Rx.catchError, Rx.map, postDraft, ajax.
  destruct (net_postDraft remote draftId t0) as [d [err|data]|]; cbn; [|done|done].
  by destruct (handleError_of err (t0 + d)) as [a ->].
Qed.

(** The call made for the last [saveDraftComplete] of a run: when it
    fails, not with status 401, the epic emits an event that clears the
    loading flag. *)
Lemma saveDraftCompleteEpic_clears remote preloaded (earlier later : Log) (t : Millis)
    (d : Millis) (err : RxError) :
  Forall (fun e => saveDraftComplete_match e.2 = false) later →
  let log := earlier ++ (t, saveDraftComplete) :: later in
  net_postDraft remote (draft_id (draft (state_of preloaded log (S (length earlier))))) t
    = Settles d (inl err) →
  status err ≠ Some 401%Z →
  ∃ a, (t + d, a)
         ∈ emits (saveDraftCompleteEpic remote (action_of log) (state_of preloaded log))
       ∧ clearsLoading a.
Proof.
  intros Hlater log Hreply Hr. unfold saveDraftCompleteEpic.
  pose proof (triggers_last saveDraftComplete_match earlier later (t, saveDraftComplete)
                eq_refl Hlater) as Htr.
  cbn [fst snd] in Htr.
  change (earlier ++ (t, saveDraftComplete) :: later) with log in Htr.
  rewrite Htr. clear Htr.
  unfold Src.withLatestFrom. rewrite fmap_app. cbn [fmap list_fmap fst snd seen].
  set (state := state_of preloaded log (S (length earlier))) in *.
  destruct (handleError_clears err (t + d) Hr) as (a & Herr & Ha).
  exists a. split; [|done].
  apply (switchMap_last _ _ {| ms := t; seen := S (length earlier) |}).
  - intros [a0 st] t0 te e. rewrite commit_call.
    by destruct (net_postDraft remote (draft_id (draft st)) t0) as [? [?|?]|].
  - cbn [ms]. rewrite commit_call, Hreply. cbn. rewrite Herr. cbn.
    by apply list_elem_of_singleton.
Qed.

(** The actions [workflowOf] knows are the actions whose transition sets
    the loading flag to true. *)
Lemma workflowOf_sets_loading remote log (a : Action) :
  is_Some (workflowOf remote log a) ↔ ∀ state, isLoading (graphReducer state a) = true.
Proof.
  split.
  - intros [epic H] state. by destruct a.
  - intros H. specialize (H initialState).
    destruct a; try discriminate H; by eexists.
Qed.

(** C6 (amended). The workflows that set the loading flag and recover
    from failures.  For [createDraft] and for [getGraph]: when the call made
    for the last such action of a run settles, with success or with a failure
    whose status is not 401, the epic emits, at the time of the response, an
    event whose transition sets the loading flag to false.  For
    [saveDraftComplete]: the same when the call fails with a status other
    than 401.  On status 401 the error translator emits [authLogout] alone,
    whose transition leaves the state, the loading flag included, as it
    was. *)
Theorem loading_cleared_unless_unauthorized remote preloaded (earlier later : Log)
    (t d : Millis) :
  let fire := t + 1000 in
  (∀ v r,
     let log := earlier ++ (t, createDraft v) :: later in
     Forall (fun e => createDraft_match e.2 = false) later →
     net_postViewDraft remote v t = Settles d r →
     authorized r →
     ∃ a, (t + d, a) ∈ emits (draftEpic remote (action_of log) (state_of preloaded log))
          ∧ clearsLoading a)
  ∧ (∀ r,
     let log := earlier ++ (t, getGraph) :: later in
     Forall (fun e => getGraph_match e.2 = false) later →
     computeReply remote (state_of preloaded log (async_of log fire)) fire = Settles d r →
     authorized r →
     ∃ a, (fire + d, a)
            ∈ emits (graphEpic remote (async_of log) (action_of log)
                               (state_of preloaded log))
          ∧ clearsLoading a)
  ∧ (∀ err,
     let log := earlier ++ (t, saveDraftComplete) :: later in
     Forall (fun e => saveDraftComplete_match e.2 = false) later →
     net_postDraft remote
       (draft_id (draft (state_of preloaded log (S (length earlier))))) t
       = Settles d (inl err) →
     status err ≠ Some 401%Z →
     ∃ a, (t + d, a)
            ∈ emits (saveDraftCompleteEpic remote (action_of log)
                                           (state_of preloaded log))
          ∧ clearsLoading a)
  ∧ (∀ err,
     status err = Some 401%Z →
     handleError err (t + d) = mkObs [] [(t + d, authLogout)] (Completed (t + d))
     ∧ ∀ state, graphReducer state authLogout = state).
Proof.
  intros fire. split; [|split; [|split]].
  - intros v r log Hlater Hreply Hr. by apply (draftEpic_clears _ _ _ _ _ _ _ r).
  - intros r log Hlater Hreply Hr. by apply (graphEpic_clears _ _ _ _ _ _ r).
  - intros err log Hlater Hreply Hr. by apply (saveDraftCompleteEpic_clears _ _ _ _ _ _ err).
  - intros err Herr. split; [by apply handleError_401 | done].
Qed.

(** *** Epics that recover from failures *)

(** When no projected observable can fail, [switchMap] never ends, and
    every value of the source sends the requests of its observable. *)
Lemma switchMap_total {A B} (project : A → Cold B) (source : Hot A) :
  (∀ x t0 te e, ending (project x t0) ≠ Errored te e) →
  ending (Src.switchMap project source) = Open
  ∧ requests (Src.switchMap project source)
    = s ← source; requests (project s.2 (ms s.1)).
Proof.
  intros Hok. induction source as [|[s a] rest [IHe IHr]]; [done|].
  cbn [Src.switchMap]. set (inner := Src.unsubscribedAt _ _).
  assert (∀ te e, ending inner ≠ Errored te e) as Hinner.
  { subst inner. unfold Src.unsubscribedAt. cbn. intros te e.
    pose proof (Hok a (ms s)) as Hok0.
    destruct (ending (project a (ms s))); [done| |];
      destruct (Src.before _ _); congruence. }
  destruct (ending inner) eqn:He; [| |by destruct (Hinner t e)];
    cbn; by rewrite IHr.
Qed.

Lemma draft_call_ok remote (x : Action * GraphState) (t0 te : Millis) (e : RxError) :
  ending ((let '(_, state) := x in
           postViewDraft remote (viewId state)
           |> Rx.map (fun data => setDraft data)
           |> Rx.catchError (fun err => handleError err)) t0) ≠ Errored te e.
Proof.
  destruct x as [a st]. rewrite draft_call.
  by destruct (net_postViewDraft remote (viewId st) t0) as [? [?|?]|].
Qed.

Lemma graph_call_ok remote (x : Action * GraphState) (t0 te : Millis) (e : RxError) :
  ending ((let '(_, state) := x in
           (match algorithmType state with
            | Dfg => postDfg remote (draft_id (draft state)) (dfgFilters state)
            | Fuzzy => postFuzzy remote (draft_id (draft state)) (fuzzyFilters state)
            end)
           |> Rx.mergeMap (fun data => [setGraph (Some data); setGraphMetrics (metrics data)])
           |> Rx.catchError handleError) t0) ≠ Errored te e.
Proof.
  destruct x as [a st]. rewrite graph_call.
  by destruct (computeReply remote st t0) as [? [?|?]|].
Qed.

Lemma commit_call_ok remote (x : Action * GraphState) (t0 te : Millis) (e : RxError) :
  ending ((let '(_, state) := x in
           postDraft remote (draft_id (draft state))
           |> Rx.map (fun _ => resetDraft)
           |> Rx.catchError handleError) t0) ≠ Errored te e.
Proof.
  destruct x as [a st]. rewrite commit_call.
  by destruct (net_postDraft remote (draft_id (draft st)) t0) as [? [?|?]|].
Qed.

(** One call of the parameter-fetch workflow. *)
Lemma params_call remote (draftId : option string) (t0 : Millis) :
  (getDraftParams remote draftId
   |> Rx.map (fun response => setUserParams response)
   |> Rx.catchError handleError) t0
  = match net_getDraftParams remote draftId t0 with
    | Settles d (inr response) =>
        mkObs [(t0, GetDraftParams draftId)] [(t0 + d, setUserParams response)]
              (Completed (t0 + d))
    | Settles d (inl err) =>
        mkObs [(t0, GetDraftParams draftId)] (emits (handleError err (t0 + d)))
              (Completed (t0 + d))
    | Pending => mkObs [(t0, GetDraftParams draftId)] [] Open
    end.
Proof.
  unfold Rx.catchError, Rx.map, getDraftParams, ajax.
  destruct (net_getDraftParams remote draftId t0) as [d [err|data]|]; cbn; [|done|done].
  by destruct (handleError_of err (t0 + d)) as [a ->].
Qed.

Lemma params_call_ok remote (x : (Action * GraphState) * GraphState) (t0 te : Millis)
    (e : RxError) :
  ending ((let '(_, state) := x in
           getDraftParams remote (draft_id (draft state))
           |> Rx.map (fun response => setUserParams response)
           |> Rx.catchError handleError) t0) ≠ Errored te e.
Proof.
  destruct x as [a st]. rewrite params_call.
  by destruct (net_getDraftParams remote (draft_id (draft st)) t0) as [? [?|?]|].
Qed.

(** X7. The four epics that pipe their call through [catchError]: in no
    run, whatever the gateway answers, does the output stream of one of them
    end, with an error or otherwise. *)
Theorem recovering_epics_never_end remote preloaded log :
  ending (draftEpic remote (action_of log) (state_of preloaded log)) = Open
  ∧ ending (saveDraftCompleteEpic remote (action_of log) (state_of preloaded log)) = Open
  ∧ ending (graphEpic remote (async_of log) (action_of log) (state_of preloaded log)) = Open
  ∧ ending (graphUserParametersEpic remote (action_of log) (state_of preloaded log)) = Open.
Proof.
  repeat split.
  - apply switchMap_total. apply draft_call_ok.
  - apply switchMap_total. apply commit_call_ok.
  - apply switchMap_total. apply graph_call_ok.
  - apply switchMap_total. apply params_call_ok.
Qed.

(** *** One output per trigger *)

Lemma state_of_step preloaded log (i : nat) (e : Millis * Action) :
  log !! i = Some e →
  state_of preloaded log (S i) = graphReducer (state_of preloaded log i) e.2.
Proof.
  intros Hi. unfold state_of, Log in *.
  rewrite (take_S_r _ _ e.2) by (by rewrite list_lookup_fmap, Hi).
  by rewrite foldl_app.
Qed.

Lemma setAlgorithmTypeEpic_stamped (n : nat) log :
  emits (setAlgorithmTypeEpic (stamped n log)) =
    e ← log;
    match e.2 with
    | setAlgorithmType _ => [(e.1, getGraph)]
    | _ => []
    end.
Proof.
  revert n. induction log as [|[t a] log IH]; intros n; [done|].
  specialize (IH (S n)). cbn in IH |- *.
  destruct a; cbn; rewrite <- IH; reflexivity.
Qed.

(** X1. Every [setAlgorithmType] of a run, whatever the algorithm it
    selects, makes the epic emit one [getGraph], at once; no other action
    makes it emit anything. *)
Theorem setAlgorithmTypeEpic_one_refetch log :
  emits (setAlgorithmTypeEpic (action_of log)) =
    e ← log;
    match e.2 with
    | setAlgorithmType _ => [(e.1, getGraph)]
    | _ => []
    end.
Proof. apply setAlgorithmTypeEpic_stamped. Qed.

Lemma draftEpic_requests_stamped remote (state_ : nat → GraphState) (n : nat) log :
  (∀ i e, log !! i = Some e → ∃ σ, state_ (S (n + i)) = graphReducer σ e.2) →
  (s ← Src.withLatestFrom state_ (Src.filter createDraft_match (stamped n log));
   requests ((let '(_, state) := s.2 in
              postViewDraft remote (viewId state)
              |> Rx.map (fun data => setDraft data)
              |> Rx.catchError (fun err => handleError err)) (ms s.1)))
  = e ← log;
    match e.2 with
    | createDraft v => [(e.1, PostViewDraft v)]
    | _ => []
    end.
Proof.
  revert n. induction log as [|[t a] log IH]; intros n Hst; [done|].
  assert (∀ i e, log !! i = Some e → ∃ σ, state_ (S (S n + i)) = graphReducer σ e.2)
    as Hst'.
  { intros i e Hi. destruct (Hst (S i) e Hi) as [σ Hσ]. exists σ.
    by replace (S n + i) with (n + S i) by lia. }
  specialize (IH (S n) Hst').
  destruct (Hst 0 (t, a) eq_refl) as [σ Hσ]. rewrite Nat.add_0_r in Hσ.
  unfold Src.withLatestFrom, Src.filter in IH |- *.
  destruct a; cbn; try exact IH.
  rewrite IH, Hσ, draft_call. cbn.
  by destruct (net_postViewDraft remote payload t) as [? [?|?]|].
Qed.

(** X6. The draft epic sends one request for every [createDraft] of a
    run, at the time of the action and for the view id the action carries:
    a newer trigger discards the answer to an earlier request, not the
    request. *)
Theorem draftEpic_requests remote preloaded log :
  requests (draftEpic remote (action_of log) (state_of preloaded log)) =
    e ← log;
    match e.2 with
    | createDraft v => [(e.1, PostViewDraft v)]
    | _ => []
    end.
Proof.
  unfold draftEpic.
  rewrite (proj2 (switchMap_total _ _ (draft_call_ok remote))).
  apply draftEpic_requests_stamped.
  intros i e Hi. eexists. by apply state_of_step.
Qed.

Lemma graphParametersEpic_stamped (state_ : nat → GraphState) (n : nat) log :
  (∀ i e, log !! i = Some e → ∃ σ, state_ (S (n + i)) = graphReducer σ e.2) →
  emits (graphParametersEpic (stamped n log) state_) =
    e ← log;
    match e.2 with
    | setUserParams ps =>
        let obj := fromEntries ((fun p => (p_key p, p_value p)) <$> ps) in
        [(e.1, setDfgFilters obj); (e.1, setFuzzyFilters obj)]
    | _ => []
    end.
Proof.
  revert n. induction log as [|[t a] log IH]; intros n Hst; [done|].
  assert (∀ i e, log !! i = Some e → ∃ σ, state_ (S (S n + i)) = graphReducer σ e.2)
    as Hst'.
  { intros i e Hi. destruct (Hst (S i) e Hi) as [σ Hσ]. exists σ.
    by replace (S n + i) with (n + S i) by lia. }
  specialize (IH (S n) Hst').
  destruct (Hst 0 (t, a) eq_refl) as [σ Hσ]. rewrite Nat.add_0_r in Hσ.
  unfold graphParametersEpic, Src.mergeMap, Src.withLatestFrom, Src.filter in IH |- *.
  cbn [emits] in IH |- *.
  destruct a; cbn; try exact IH.
  rewrite IH, Hσ. reflexivity.
Qed.

(** X16. Every [setUserParams] of a run makes the projection epic emit
    [setDfgFilters] and [setFuzzyFilters], in this order and at once, both
    with one and the same object, built from the parameter list the action
    carries; no other action makes it emit anything. *)
Theorem graphParametersEpic_two_events preloaded log :
  emits (graphParametersEpic (action_of log) (state_of preloaded log)) =
    e ← log;
    match e.2 with
    | setUserParams ps =>
        let obj := fromEntries ((fun p => (p_key p, p_value p)) <$> ps) in
        [(e.1, setDfgFilters obj); (e.1, setFuzzyFilters obj)]
    | _ => []
    end.
Proof.
  apply graphParametersEpic_stamped.
  intros i e Hi. eexists. by apply state_of_step.
Qed.

(** *** A refetch that nothing supersedes *)

Lemma debounceTime_fires {A} (due : nat) (async : Millis → nat) (pre post : Hot A)
    (s : Stamp) (a : A) :
  match head post with
  | Some e => ms s + due ≤ ms e.1
  | None => True
  end →
  ({| ms := ms s + due; seen := async (ms s + due) |}, a)
    ∈ Src.debounceTime due async (pre ++ (s, a) :: post).
Proof.
  intros Hnext. induction pre as [|[s0 a0] pre IH].
  - cbn [app Src.debounceTime]. destruct post as [|[s1 a1] post]; [by left|].
    cbn in Hnext. apply Nat.ltb_ge in Hnext. rewrite Hnext. by left.
  - cbn [app Src.debounceTime].
    destruct (pre ++ (s, a) :: post) as [|[s1 a1] l] eqn:Hl; [by destruct pre|].
    destruct (ms s1 <? ms s0 + due); [done | by right].
Qed.

Lemma head_filter_elem (p : Action → bool) (n : nat) log (h : Stamp * Action) :
  head (Src.filter p (stamped n log)) = Some h → (ms h.1, h.2) ∈ log ∧ p h.2 = true.
Proof.
  intros Hh. apply head_Some_elem_of in Hh. unfold Src.filter in Hh.
  apply list_elem_of_In, filter_In in Hh as [Hin Hp]. split; [|done].
  destruct h as [s a]. by apply list_elem_of_In, stamped_elem in Hin.
Qed.

(** X9. A [getGraph] that no other [getGraph] follows within 1000 ms
    always leads to a request, 1000 ms after it, for the state of that
    moment: neither an earlier request still in flight nor an earlier failure
    prevents it. *)
Theorem graphEpic_isolated_trigger remote preloaded (earlier later : Log) (t : Millis) :
  Forall (fun e => getGraph_match e.2 = true → t + 1000 ≤ e.1) later →
  let log := earlier ++ (t, getGraph) :: later in
  let fire := t + 1000 in
  (fire, computeRequest (state_of preloaded log (async_of log fire)))
    ∈ requests (graphEpic remote (async_of log) (action_of log) (state_of preloaded log)).
Proof.
  intros Hlater log fire. unfold graphEpic.
  rewrite (proj2 (switchMap_total _ _ (graph_call_ok remote))).
  apply list_elem_of_bind.
  exists ({| ms := fire; seen := async_of log fire |},
          (getGraph, state_of preloaded log (async_of log fire))).
  split.
  - cbn [fst snd ms]. rewrite graph_call.
    destruct (computeReply _ _ _) as [? [?|?]|]; by apply list_elem_of_singleton.
  - unfold Src.withLatestFrom. apply list_elem_of_fmap.
    exists ({| ms := fire; seen := async_of log fire |}, getGraph). split; [done|].
    change (action_of log) with (stamped 0 (earlier ++ (t, getGraph) :: later)).
    unfold Src.filter.
    rewrite stamped_app, List.filter_app. cbn [stamped List.filter snd getGraph_match fst].
    apply (debounceTime_fires 1000 (async_of log) _ _
             {| ms := t; seen := S (0 + length earlier) |} getGraph).
    destruct (head _) as [h|] eqn:Hh; [|done].
    apply (head_filter_elem getGraph_match) in Hh as [Hin Hp].
    rewrite Forall_forall in Hlater. by apply (Hlater _ Hin).
Qed.

(** *** Latest wins, for every epic that switches *)

Lemma switch_epic_emits (p : Action → bool) (call : GraphState → Cold Action)
    preloaded log (t : Millis) (a : Action) :
  chronological log →
  (t, a) ∈ emits (Src.switchMap (fun '(_, state) => call state)
                    (Src.withLatestFrom (state_of preloaded log)
                       (Src.filter p (action_of log)))) →
  ∃ earlier e later,
    log = earlier ++ e :: later
    ∧ p e.2 = true
    ∧ (t, a) ∈ emits (call (graphReducer (foldl graphReducer preloaded earlier.*2) e.2) e.1)
    ∧ ∀ e', e' ∈ later → p e'.2 = true → t < e'.1.
Proof.
  intros Hc Hin.
  apply switchMap_emits_inv in Hin as (pre & s & x & post & Hsrc & Hin & Hcut).
  apply triggers_split in Hsrc as (earlier & e & later & -> & Hp & Hs & -> & Hhead).
  exists earlier, e, later. rewrite Hs in Hin. repeat split; try done.
  intros [tj a'] Hj Hpj.
  destruct (head_filter_stamped p (S (length earlier)) later tj a')
    as (h & Hh & Hle); [by eapply chronological_later | done | done |].
  rewrite Hhead, Hh in Hcut. cbn in Hcut. apply Nat.ltb_lt in Hcut. cbn. lia.
Qed.

Lemma withLatestFrom_twice {A S B} (state_ : nat → S) (call : S → Cold B)
    (source : Hot A) :
  Src.switchMap (fun '(_, state) => call state)
    (Src.withLatestFrom state_ (Src.withLatestFrom state_ source))
  = Src.switchMap (fun '(_, state) => call state) (Src.withLatestFrom state_ source).
Proof.
  induction source as [|[s a] rest IH]; [done|].
  unfold Src.withLatestFrom in *. cbn [fmap list_fmap Src.switchMap fst snd].
  rewrite IH. by destruct rest.
Qed.

(** X2. Every event the parameter-fetch epic emits is the outcome of the
    call made for a [setDraft], with the id of the draft that action carries,
    after which no other [setDraft] was dispatched until the response
    arrived: the parameter list of a draft that has been replaced is never
    stored. *)
Theorem graphUserParametersEpic_latest_wins remote preloaded log (t : Millis) (a : Action) :
  chronological log →
  (t, a) ∈ emits (graphUserParametersEpic remote (action_of log) (state_of preloaded log)) →
  ∃ earlier ti loaded later d r,
    log = earlier ++ (ti, setDraft loaded) :: later
    ∧ net_getDraftParams remote (draft_id loaded) ti = Settles d r
    ∧ t = ti + d
    ∧ match r with
      | inr response => a = setUserParams response
      | inl err => (t, a) ∈ emits (handleError err t)
      end
    ∧ ∀ tj loaded', (tj, setDraft loaded') ∈ later → t < tj.
Proof.
  intros Hc Hin. unfold graphUserParametersEpic in Hin.
  rewrite (withLatestFrom_twice _
             (fun state => getDraftParams remote (draft_id (draft state))
                           |> Rx.map (fun response => setUserParams response)
                           |> Rx.catchError handleError)) in Hin.
  apply (switch_epic_emits setDraft_match) in Hin
    as (earlier & [ti act] & later & -> & Hp & Hin & Hlater); [|done].
  cbn in Hp. destruct act; try discriminate Hp.
  rewrite params_call in Hin. cbn [fst snd draft graphReducer set_draft] in Hin.
  exists earlier, ti, payload, later.
  destruct (net_getDraftParams remote (draft_id payload) ti) as [d [err|response]|];
    cbn [emits] in Hin.
  - destruct (handleError_of err (ti + d)) as [a' Ha']. rewrite Ha' in Hin. cbn in Hin.
    apply list_elem_of_singleton in Hin as [= -> ->].
    exists d, (inl err). repeat split; try done.
    + rewrite Ha'. cbn. by apply list_elem_of_singleton.
    + intros tj loaded' Hj. by apply (Hlater (tj, setDraft loaded')).
  - apply list_elem_of_singleton in Hin as [= -> ->].
    exists d, (inr response). repeat split; try done.
    intros tj loaded' Hj. by apply (Hlater (tj, setDraft loaded')).
  - by apply elem_of_nil in Hin.
Qed.

(** X15. Every event the save-completion epic emits is the outcome of the
    commit made for a [saveDraftComplete], with the id of the draft of that
    moment, after which no other [saveDraftComplete] was dispatched until the
    response arrived; a success gives [resetDraft], a failure what the error
    translator makes of it. *)
Theorem saveDraftCompleteEpic_latest_wins remote preloaded log (t : Millis) (a : Action) :
  chronological log →
  (t, a) ∈ emits (saveDraftCompleteEpic remote (action_of log) (state_of preloaded log)) →
  ∃ earlier ti later d r,
    log = earlier ++ (ti, saveDraftComplete) :: later
    ∧ net_postDraft remote (draft_id (draft (foldl graphReducer preloaded earlier.*2))) ti
      = Settles d r
    ∧ t = ti + d
    ∧ match r with
      | inr _ => a = resetDraft
      | inl err => (t, a) ∈ emits (handleError err t)
      end
    ∧ ∀ tj, (tj, saveDraftComplete) ∈ later → t < tj.
Proof.
  intros Hc Hin. unfold saveDraftCompleteEpic in Hin.
  apply (switch_epic_emits saveDraftComplete_match
           (fun state => postDraft remote (draft_id (draft state))
                         |> Rx.map (fun _ => resetDraft)
                         |> Rx.catchError handleError)) in Hin
    as (earlier & [ti act] & later & -> & Hp & Hin & Hlater); [|done].
  cbn in Hp. destruct act; try discriminate Hp.
  rewrite commit_call in Hin.
  cbn [fst snd draft graphReducer set_error set_isLoading] in Hin.
  exists earlier, ti, later.
  destruct (net_postDraft remote _ ti) as [d [err|response]|]; cbn [emits] in Hin.
  - destruct (handleError_of err (ti + d)) as [a' Ha']. rewrite Ha' in Hin. cbn in Hin.
    apply list_elem_of_singleton in Hin as [= -> ->].
    exists d, (inl err). repeat split; try done.
    + rewrite Ha'. cbn. by apply list_elem_of_singleton.
    + intros tj Hj. by apply (Hlater (tj, saveDraftComplete)).
  - apply list_elem_of_singleton in Hin as [= -> ->].
    exists d, (inr response). repeat split; try done.
    intros tj Hj. by apply (Hlater (tj, saveDraftComplete)).
  - by apply elem_of_nil in Hin.
Qed.

(** *** One save, whatever the gateway does *)

Lemma updateFails_dec remote (t : Millis) (p : GraphParameters) :
  updateFails remote t p ∨ ¬ updateFails remote t p.
Proof.
  unfold updateFails.
  destruct (net_patchDraftParameter remote (p_id p) p t) as [d [?|?]|]; auto.
  destruct (le_lt_dec 1000 d); [auto | right; lia].
Qed.

Lemma updates_fail_or_not remote (t : Millis) (ps : list GraphParameters) :
  Exists (updateFails remote t) ps ∨ Forall (fun p => ¬ updateFails remote t p) ps.
Proof.
  induction ps as [|p ps [IH|IH]]; [by right | by left; right |].
  destruct (updateFails_dec remote t p); [by left; left | by right; constructor].
Qed.

Lemma save_verdicts remote (t : Millis) (ps : list GraphParameters) :
  Rx.verdict <$> ((fun o => o t) <$>
    ((fun userParam => Rx.timeout 1000 (patchDraftParameter remote (p_id userParam) userParam))
     <$> ps))
  = (fun p => match net_patchDraftParameter remote (p_id p) p t with
              | Settles d (inr a) =>
                  if d <? 1000 then Rx.Done (t + d) a
                  else Rx.Failed (t + 1000) TimeoutError
              | Settles d (inl e) =>
                  if d <? 1000 then Rx.Failed (t + d) e
                  else Rx.Failed (t + 1000) TimeoutError
              | Pending => Rx.Failed (t + 1000) TimeoutError
              end) <$> ps.
Proof.
  rewrite <- !list_fmap_compose. apply list_fmap_ext. intros i p _. cbn.
  apply timed_patch_verdict.
Qed.

Lemma save_requests remote (t : Millis) (ps : list GraphParameters) :
  mjoin (requests <$> ((fun o => o t) <$>
    ((fun userParam => Rx.timeout 1000 (patchDraftParameter remote (p_id userParam) userParam))
     <$> ps)))
  = updateRequests t ps.
Proof.
  induction ps as [|p ps IH]; [done|].
  rewrite !fmap_cons. cbn [mjoin list_join].
  change (updateRequests t (p :: ps))
    with ([(t, PatchDraftParameter (p_id p) p)] ++ updateRequests t ps).
  f_equal; [|exact IH].
  unfold Rx.timeout, patchDraftParameter, ajax. cbn.
  by destruct (net_patchDraftParameter remote (p_id p) p t) as [d [?|?]|].
Qed.

Lemma firstAbort_None {A} (vs : list (Rx.Verdict A)) :
  Forall (fun v => ∃ t a, v = Rx.Done t a) vs → Rx.firstAbort vs = None.
Proof. induction 1 as [|v vs (t & a & ->) _ IH]; [done|]. cbn. by rewrite IH. Qed.

Lemma firstAbort_bound {A} (bound : Millis) (vs : list (Rx.Verdict A))
    (te : Millis) (e : Ending) :
  Forall (fun v => match v with
                   | Rx.Failed t _ | Rx.Empty t => t ≤ bound
                   | _ => True
                   end) vs →
  Rx.firstAbort vs = Some (te, e) → te ≤ bound.
Proof.
  intros Hvs. revert te e. induction Hvs as [|v vs Hv _ IH]; intros te e; [done|].
  cbn. destruct v as [t v|t|t err|]; try apply IH.
  - destruct (Rx.firstAbort vs) as [[t' e']|].
    + destruct (t' <? t); intros [= <- <-]; [by eapply IH | done].
    + by intros [= <- <-].
  - destruct (Rx.firstAbort vs) as [[t' e']|].
    + destruct (t' <? t); intros [= <- <-]; [by eapply IH | done].
    + by intros [= <- <-].
Qed.

(** One call of the save workflow: the requests; with no parameter,
    nothing; when every update is answered in time, [saveDraftComplete] at
    the last answer; when one fails, the failure and no event. *)
Lemma save_call remote state (t : Millis) :
  let ps := newUserParams state in
  let call :=
    Rx.forkJoin
      ((fun userParam =>
          Rx.timeout 1000 (patchDraftParameter remote (p_id userParam) userParam))
       <$> ps)
      (fun _ => saveDraftComplete) t in
  (ps = [] → call = mkObs [] [] (Completed t))
  ∧ (ps ≠ [] → Forall (fun p => ¬ updateFails remote t p) ps →
     let tm := max_list (updateAnswered remote t <$> ps) in
     call = mkObs (updateRequests t ps) [(tm, saveDraftComplete)] (Completed tm)
     ∧ tm < t + 1000)
  ∧ (Exists (updateFails remote t) ps →
     ∃ te e, call = mkObs (updateRequests t ps) [] (Errored te e) ∧ te ≤ t + 1000).
Proof.
  intros ps call. subst call. clearbody ps. unfold Rx.forkJoin.
  rewrite save_requests, save_verdicts. split; [|split].
  - by intros ->.
  - intros Hne Hok.
    assert (Rx.firstAbort
              ((fun p => match net_patchDraftParameter remote (p_id p) p t with
                         | Settles d (inr a) =>
                             if d <? 1000 then Rx.Done (t + d) a
                             else Rx.Failed (t + 1000) TimeoutError
                         | Settles d (inl e) =>
                             if d <? 1000 then Rx.Failed (t + d) e
                             else Rx.Failed (t + 1000) TimeoutError
                         | Pending => Rx.Failed (t + 1000) TimeoutError
                         end) <$> ps) = None) as ->.
    { apply firstAbort_None, Forall_fmap. eapply Forall_impl; [exact Hok|].
      intros p Hp. cbn. unfold updateFails in Hp.
      destruct (net_patchDraftParameter remote (p_id p) p t) as [d [?|a]|];
        [by destruct Hp | | by destruct Hp].
      destruct (Nat.ltb_spec d 1000); [by eexists _, _ | lia]. }
    assert (∃ values,
              Rx.allDone
                ((fun p => match net_patchDraftParameter remote (p_id p) p t with
                           | Settles d (inr a) =>
                               if d <? 1000 then Rx.Done (t + d) a
                               else Rx.Failed (t + 1000) TimeoutError
                           | Settles d (inl e) =>
                               if d <? 1000 then Rx.Failed (t + d) e
                               else Rx.Failed (t + 1000) TimeoutError
                           | Pending => Rx.Failed (t + 1000) TimeoutError
                           end) <$> ps)
              = Some (max_list (updateAnswered remote t <$> ps), values)
              ∧ max_list (updateAnswered remote t <$> ps) < t + 1000)
      as (values & -> & Hlt).
    { clear Hne. induction Hok as [|p ps' Hp _ (values & IH & Hlt)].
      { exists []. split; [done | cbn; lia]. }
      cbn. unfold updateFails in Hp. unfold updateAnswered at 1 3.
      destruct (net_patchDraftParameter remote (p_id p) p t) as [d [?|a]|];
        [by destruct Hp | | by destruct Hp].
      destruct (Nat.ltb_spec d 1000); [|lia].
      rewrite IH. exists (a :: values). cbn. split; [done | lia]. }
    split; [|done]. by destruct ps.
  - intros Hex.
    destruct (firstAbort_is_Some
                ((fun p => match net_patchDraftParameter remote (p_id p) p t with
                           | Settles d (inr a) =>
                               if d <? 1000 then Rx.Done (t + d) a
                               else Rx.Failed (t + 1000) TimeoutError
                           | Settles d (inl e) =>
                               if d <? 1000 then Rx.Failed (t + d) e
                               else Rx.Failed (t + 1000) TimeoutError
                           | Pending => Rx.Failed (t + 1000) TimeoutError
                           end) <$> ps)) as [[ta ea] Hab].
    { apply Exists_fmap. eapply Exists_impl; [exact Hex|].
      intros p Hp. cbn. unfold updateFails in Hp.
      destruct (net_patchDraftParameter remote (p_id p) p t) as [d [?|a]|];
        [destruct (d <? 1000); eauto | | eauto].
      destruct (Nat.ltb_spec d 1000); [lia | eauto]. }
    pose proof Hab as Hab'.
    apply firstAbort_Errored in Hab' as (te & e & [= -> ->]).
    2: { apply Forall_fmap, Forall_forall. intros p _ tc. cbn.
         destruct (net_patchDraftParameter remote (p_id p) p t) as [d [?|?]|]; [| |done];
           by destruct (d <? 1000). }
    apply (firstAbort_bound (t + 1000)) in Hab as Hle.
    2: { apply Forall_fmap, Forall_forall. intros p _. cbn.
         destruct (net_patchDraftParameter remote (p_id p) p t) as [d [?|?]|]; [| |done];
           destruct (Nat.ltb_spec d 1000); (done || lia). }
    rewrite Hab. exists te, e. split; [|done].
    destruct ps as [|p ps']; [by apply Exists_nil in Hex | done].
Qed.

Lemma saveDraft_source preloaded (earlier later : Log) (t : Millis) :
  Forall (fun e => saveDraft_match e.2 = false) earlier →
  let log := earlier ++ (t, saveDraft) :: later in
  Src.withLatestFrom (state_of preloaded log) (Src.filter saveDraft_match (action_of log))
  = ({| ms := t; seen := S (length earlier) |},
     (saveDraft, graphReducer (foldl graphReducer preloaded earlier.*2) saveDraft))
    :: Src.withLatestFrom (state_of preloaded log)
         (Src.filter saveDraft_match (stamped (S (length earlier)) later)).
Proof.
  intros Hearlier log. unfold action_of, Src.filter, log.
  rewrite stamped_app, List.filter_app.
  rewrite (filter_none _ _ (Forall_stamped saveDraft_match 0 _ Hearlier)).
  cbn [app stamped List.filter snd fst saveDraft_match Nat.add].
  unfold Src.withLatestFrom. cbn [fmap list_fmap fst snd seen].
  by rewrite state_of_snoc.
Qed.

(** A run with one [saveDraft]: the output of the epic is the one call. *)
Lemma saveDraftEpic_single remote preloaded (earlier later : Log) (t : Millis) :
  Forall (fun e => saveDraft_match e.2 = false) earlier →
  Forall (fun e => saveDraft_match e.2 = false) later →
  let log := earlier ++ (t, saveDraft) :: later in
  let call :=
    Rx.forkJoin
      ((fun userParam =>
          Rx.timeout 1000 (patchDraftParameter remote (p_id userParam) userParam))
       <$> newUserParams (foldl graphReducer preloaded earlier.*2))
      (fun _ => saveDraftComplete) t in
  saveDraftEpic remote (action_of log) (state_of preloaded log)
  = match ending call with
    | Errored _ _ => call
    | _ => mkObs (requests call) (emits call) Open
    end.
Proof.
  intros Hearlier Hlater log call. subst log. unfold saveDraftEpic.
  rewrite (saveDraft_source preloaded earlier later t Hearlier).
  unfold Src.filter.
  rewrite (filter_none _ _ (Forall_stamped saveDraft_match _ _ Hlater)).
  cbn [Src.withLatestFrom fmap list_fmap]. by rewrite switchMap_singleton.
Qed.

(** X3. A run with one [saveDraft], at [t], in a state with at least one
    parameter: when every update is answered with success in less than
    1000 ms, the epic sends one update per parameter, all at [t], and emits
    one [saveDraftComplete], at the time of the last answer. *)
Theorem saveDraftEpic_all_answered remote preloaded (earlier later : Log) (t : Millis) :
  let log := earlier ++ (t, saveDraft) :: later in
  let ps := newUserParams (foldl graphReducer preloaded earlier.*2) in
  Forall (fun e => saveDraft_match e.2 = false) earlier →
  Forall (fun e => saveDraft_match e.2 = false) later →
  ps ≠ [] →
  Forall (fun p => ¬ updateFails remote t p) ps →
  saveDraftEpic remote (action_of log) (state_of preloaded log)
  = mkObs (updateRequests t ps)
          [(max_list (updateAnswered remote t <$> ps), saveDraftComplete)]
          Open.
Proof.
  intros log ps Hearlier Hlater Hne Hok. subst log.
  rewrite (saveDraftEpic_single remote preloaded earlier later t Hearlier Hlater).
  destruct (save_call remote (foldl graphReducer preloaded earlier.*2) t)
    as (_ & Hsucc & _).
  destruct (Hsucc Hne Hok) as [-> _]. done.
Qed.

(** X4. A run with one [saveDraft], at [t], in a state with at least one
    parameter: whatever the gateway does, even when it never answers, within
    1000 ms the epic has either emitted [saveDraftComplete] or ended with an
    error; in both cases it has sent one update per parameter. *)
Theorem saveDraftEpic_settles remote preloaded (earlier later : Log) (t : Millis) :
  let log := earlier ++ (t, saveDraft) :: later in
  let ps := newUserParams (foldl graphReducer preloaded earlier.*2) in
  let run := saveDraftEpic remote (action_of log) (state_of preloaded log) in
  Forall (fun e => saveDraft_match e.2 = false) earlier →
  Forall (fun e => saveDraft_match e.2 = false) later →
  ps ≠ [] →
  (∃ tm, tm < t + 1000
         ∧ run = mkObs (updateRequests t ps) [(tm, saveDraftComplete)] Open)
  ∨ (∃ te e, te ≤ t + 1000
             ∧ run = mkObs (updateRequests t ps) [] (Errored te e)).
Proof.
  intros log ps run Hearlier Hlater Hne. subst run log.
  rewrite (saveDraftEpic_single remote preloaded earlier later t Hearlier Hlater).
  destruct (save_call remote (foldl graphReducer preloaded earlier.*2) t)
    as (_ & Hsucc & Hfail).
  destruct (updates_fail_or_not remote t ps) as [Hex|Hok].
  - right. destruct (Hfail Hex) as (te & e & -> & Hle). by exists te, e.
  - left. destruct (Hsucc Hne Hok) as [-> Hlt]. by eexists.
Qed.

(** X5. After a failed save the epic is dead.  When the first [saveDraft]
    of a run, at [t], has an update that fails, and every later [saveDraft]
    comes more than 1000 ms after it, the only requests of the whole run are
    the updates of that first save and the epic emits nothing: the later
    saves send nothing to the gateway. *)
Theorem saveDraftEpic_dead_after_failure remote preloaded (earlier later : Log)
    (t : Millis) :
  let log := earlier ++ (t, saveDraft) :: later in
  let ps := newUserParams (foldl graphReducer preloaded earlier.*2) in
  let run := saveDraftEpic remote (action_of log) (state_of preloaded log) in
  Forall (fun e => saveDraft_match e.2 = false) earlier →
  Forall (fun e => saveDraft_match e.2 = true → t + 1000 < e.1) later →
  Exists (updateFails remote t) ps →
  requests run = updateRequests t ps
  ∧ emits run = []
  ∧ ∃ te e, ending run = Errored te e.
Proof.
  intros log ps run Hearlier Hlater Hex. subst run log. unfold saveDraftEpic.
  rewrite (saveDraft_source preloaded earlier later t Hearlier).
  cbn [Src.switchMap fst snd ms].
  destruct (save_call remote (foldl graphReducer preloaded earlier.*2) t)
    as (_ & _ & Hfail).
  destruct (Hfail Hex) as (te & e & Hcall & Hle).
  change (newUserParams (graphReducer (foldl graphReducer preloaded earlier.*2) saveDraft))
    with (newUserParams (foldl graphReducer preloaded earlier.*2)).
  cbn zeta in Hcall |- *. rewrite Hcall.
  assert (Src.before
            ((fun e => ms e.1) <$>
               head (Src.withLatestFrom
                       (state_of preloaded (earlier ++ (t, saveDraft) :: later))
                       (Src.filter saveDraft_match (stamped (S (length earlier)) later))))
            te = true) as Hcut.
  { unfold Src.withLatestFrom.
    destruct (head (Src.filter saveDraft_match (stamped (S (length earlier)) later)))
      as [h|] eqn:Hh.
    - apply head_filter_elem in Hh as Hh'. destruct Hh' as [Hin Hp].
      rewrite Forall_forall in Hlater. specialize (Hlater _ Hin Hp). cbn in Hlater.
      destruct (Src.filter _ _) as [|h' l]; [done|]. cbn in Hh. injection Hh as ->.
      cbn. apply Nat.ltb_lt. lia.
    - by destruct (Src.filter _ _). }
  unfold Src.unsubscribedAt. cbn [requests emits ending List.filter].
  rewrite Hcut. cbn. eauto.
Qed.

(** *** After a draft is loaded, after the parameters are loaded *)

(** X14. Once a [setDraft] and the three events the post-draft-load epic
    emits for it have been reduced, the draft is the one loaded, both filter
    sets are the initial ones, whatever they were, and the loading flag is
    set again, with no error message. *)
Theorem draft_load_resets_filters preloaded (loaded : ViewDraft) (t : Millis) :
  let log := [(t, setDraft loaded)] in
  let followUp := emits (setDraftEpic (action_of log)) in
  let state := foldl graphReducer (state_of preloaded log 1) followUp.*2 in
  draft state = loaded
  ∧ dfgFilters state = dfgFilters initialState
  ∧ fuzzyFilters state = fuzzyFilters initialState
  ∧ isLoading state = true
  ∧ error state = "".
Proof. done. Qed.

Lemma fromEntries_absent (entries : list (string * JsValue)) (k : string) :
  k ∉ entries.*1 → fromEntries entries !! k = None.
Proof.
  induction entries as [|[k' v'] entries IH] using rev_ind; intros Hk; [done|].
  rewrite fromEntries_snoc. rewrite fmap_app, elem_of_app in Hk. cbn in Hk.
  rewrite lookup_insert_ne.
  - apply IH. tauto.
  - intros ->. apply Hk. right. by left.
Qed.

(** X17. The projection replaces both filter sets: afterwards neither
    has a property of its own for a key that no parameter of the list
    carries, whatever it held before, the keys of the initial filter sets
    included. *)
Theorem projection_drops_other_keys preloaded (ps : list GraphParameters) (k : string) :
  k ∉ (p_key <$> ps) →
  dfgFilters (projected preloaded ps) !! k = None
  ∧ fuzzyFilters (projected preloaded ps) !! k = None.
Proof.
  intros Hk. destruct (projected_fields preloaded ps) as (_ & -> & ->).
  rewrite fromEntries_absent; [done|].
  by rewrite <- list_fmap_compose.
Qed.

(** *** A refetch that a later one supersedes *)

Lemma debounceTime_elem_split {A} (due : nat) (async : Millis → nat) (source : Hot A)
    (s : Stamp) (a : A) :
  (s, a) ∈ Src.debounceTime due async source →
  ∃ pre s0 post,
    source = pre ++ (s0, a) :: post
    ∧ s = {| ms := ms s0 + due; seen := async (ms s0 + due) |}
    ∧ match head post with
      | Some e => ms s0 + due ≤ ms e.1
      | None => True
      end.
Proof.
  induction source as [|[s0 a0] rest IH].
  { cbn. by intros ?%elem_of_nil. }
  cbn [Src.debounceTime].
  assert ((s, a) ∈ Src.debounceTime due async rest →
          ∃ pre s1 post,
            (s0, a0) :: rest = pre ++ (s1, a) :: post
            ∧ s = {| ms := ms s1 + due; seen := async (ms s1 + due) |}
            ∧ match head post with
              | Some e => ms s1 + due ≤ ms e.1
              | None => True
              end) as Hlater.
  { intros Hin. destruct (IH Hin) as (pre & s1 & post & -> & ? & ?).
    by exists ((s0, a0) :: pre), s1, post. }
  destruct rest as [|[s1 a1] rest'].
  - intros [= -> ->]%list_elem_of_singleton. by exists [], s0, [].
  - destruct (Nat.ltb_spec (ms s1) (ms s0 + due)); [done|].
    intros [[= -> ->]|Hin]%elem_of_cons; [|auto].
    by exists [], s0, ((s1, a1) :: rest').
Qed.

(** X18. No request of the graph epic leaves 1000 ms after a moment [t]
    when a [getGraph] is dispatched later than [t] and less than 1000 ms
    after it: a trigger that another one follows within the quiet period
    sends nothing. *)
Theorem graphEpic_superseded_trigger remote preloaded log (t t' : Millis) (rq : Request) :
  chronological log →
  (t', getGraph) ∈ log →
  t < t' →
  t' < t + 1000 →
  (t + 1000, rq) ∉ requests (graphEpic remote (async_of log) (action_of log)
                                       (state_of preloaded log)).
Proof.
  intros Hc Hnext Hlt Hwithin Hin. unfold graphEpic in Hin.
  apply switchMap_requests_inv in Hin as (s & [a state] & Hsrc & Hin).
  unfold Src.withLatestFrom in Hsrc.
  apply list_elem_of_fmap in Hsrc as ([s' a'] & [= -> -> ->] & Hsrc).
  apply debounceTime_elem_split in Hsrc as (pre & s0 & post & Hsrc & -> & Hhead).
  cbn [ms seen fst snd] in Hin. rewrite graph_call in Hin.
  assert (t + 1000 = ms s0 + 1000) as Ht.
  { destruct (computeReply _ _ _) as [d [err|data]|];
      by apply list_elem_of_singleton in Hin as [= -> _]. }
  unfold Src.filter, action_of in Hsrc.
  apply filter_split in Hsrc as (k1 & k2 & Hsrc & _ & <- & Hp).
  apply stamped_split in Hsrc as (g1 & e & g2 & -> & _ & [= -> ->] & ->).
  clear Hin. destruct e as [te ae]. cbn [fst snd ms Nat.add] in Ht, Hhead, Hp.
  apply elem_of_app in Hnext as [Hnext|Hnext].
  - pose proof (StronglySorted_app_1_elem_of _ _ _ (t', getGraph) (te, ae) Hc Hnext)
      as Hle.
    specialize (Hle ltac:(by left)). cbn in Hle. lia.
  - apply elem_of_cons in Hnext as [[= -> _]|Hnext]; [lia|].
    destruct (head_filter_stamped getGraph_match (S (length g1)) g2 t' getGraph)
      as (h & Hh & Hle); [by eapply chronological_later | done | done |].
    unfold Src.filter in Hh. rewrite Hh in Hhead. unfold Millis in *. lia.
Qed.

(** *** What the epics can emit *)

Lemma handleError_emittable (err : RxError) (t0 t : Millis) (a : Action) :
  (t, a) ∈ emits (handleError err t0) → emittable a = true.
Proof.
  unfold handleError.
  destruct (bool_decide _); [by intros [= _ ->]%list_elem_of_singleton|].
  destruct (_ || _); by intros [= _ ->]%list_elem_of_singleton.
Qed.

Lemma switchMap_emits_from {A B} (project : A → Cold B) (source : Hot A)
    (t : Millis) (b : B) :
  (t, b) ∈ emits (Src.switchMap project source) →
  ∃ x t0, (t, b) ∈ emits (project x t0).
Proof.
  intros Hin. apply switchMap_emits_inv in Hin as (_ & s & a & _ & _ & Hin & _).
  by exists a, (ms s).
Qed.

(** X19. Whatever the run and the gateway, an epic of the slice emits
    only [setDraft], [saveDraftComplete], [resetDraft], [setDfgFilters],
    [setFuzzyFilters], [getGraph], [setGraph], [setGraphMetrics],
    [setUserParams], [getFailed] and [authLogout]: never [createDraft],
    [saveDraft] or [setAlgorithmType], so no epic starts a draft creation, a
    save or an algorithm switch. *)
Theorem epics_emit_only remote preloaded log (e : Millis * Action) :
  e ∈ emitted remote preloaded log → emittable e.2 = true.
Proof.
  destruct e as [t a]. unfold emitted. cbn [snd]. rewrite !elem_of_app.
  intros [Hin|[Hin|[Hin|[Hin|[Hin|[Hin|[Hin|Hin]]]]]]].
  - apply switchMap_emits_from in Hin as ([a0 st] & t0 & Hin).
    rewrite draft_call in Hin.
    destruct (net_postViewDraft remote (viewId st) t0) as [d [err|data]|];
      cbn [emits] in Hin.
    + by eapply handleError_emittable.
    + by apply list_elem_of_singleton in Hin as [= _ ->].
    + by apply elem_of_nil in Hin.
  - apply switchMap_emits_from in Hin as ([a0 st] & t0 & Hin).
    cbn zeta in Hin.
    pose proof (save_call remote st t0) as Hcall. cbn zeta in Hcall.
    destruct Hcall as (Hnone & Hsucc & Hfail).
    destruct (updates_fail_or_not remote t0 (newUserParams st)) as [Hex|Hok].
    + destruct (Hfail Hex) as (te & e & Hcall & _). rewrite Hcall in Hin.
      by apply elem_of_nil in Hin.
    + destruct (newUserParams st) as [|p ps] eqn:Hps.
      * rewrite (Hnone eq_refl) in Hin. by apply elem_of_nil in Hin.
      * destruct (Hsucc ltac:(done) Hok) as [Hcall _]. rewrite Hcall in Hin.
        by apply list_elem_of_singleton in Hin as [= _ ->].
  - apply switchMap_emits_from in Hin as ([a0 st] & t0 & Hin).
    rewrite commit_call in Hin.
    destruct (net_postDraft remote (draft_id (draft st)) t0) as [d [err|data]|];
      cbn [emits] in Hin.
    + by eapply handleError_emittable.
    + by apply list_elem_of_singleton in Hin as [= _ ->].
    + by apply elem_of_nil in Hin.
  - unfold action_of in Hin. rewrite setDraftEpic_stamped in Hin.
    apply list_elem_of_bind in Hin as ([t0 a0] & Hin & _).
    destruct a0; cbn in Hin; try by apply elem_of_nil in Hin.
    repeat (apply elem_of_cons in Hin as [[= _ ->]|Hin]; [done|]).
    by apply elem_of_nil in Hin.
  - unfold action_of in Hin. rewrite setAlgorithmTypeEpic_stamped in Hin.
    apply list_elem_of_bind in Hin as ([t0 a0] & Hin & _).
    destruct a0; cbn in Hin; try by apply elem_of_nil in Hin.
    by apply list_elem_of_singleton in Hin as [= _ ->].
  - apply switchMap_emits_from in Hin as ([a0 st] & t0 & Hin).
    rewrite graph_call in Hin.
    destruct (computeReply remote st t0) as [d [err|data]|]; cbn [emits] in Hin.
    + by eapply handleError_emittable.
    + repeat (apply elem_of_cons in Hin as [[= _ ->]|Hin]; [done|]).
      by apply elem_of_nil in Hin.
    + by apply elem_of_nil in Hin.
  - apply switchMap_emits_from in Hin as ([a0 st] & t0 & Hin).
    rewrite params_call in Hin.
    destruct (net_getDraftParams remote (draft_id (draft st)) t0) as [d [err|data]|];
      cbn [emits] in Hin.
    + by eapply handleError_emittable.
    + by apply list_elem_of_singleton in Hin as [= _ ->].
    + by apply elem_of_nil in Hin.
  - unfold graphParametersEpic, Src.mergeMap in Hin. cbn [emits] in Hin.
    apply list_elem_of_bind in Hin as ([s [a0 st]] & Hin & _). cbn in Hin.
    repeat (apply elem_of_cons in Hin as [[= _ ->]|Hin]; [done|]).
    by apply elem_of_nil in Hin.
Qed.

(** *** The call of a refetch that nothing supersedes *)

Lemma debounceTime_cons {A} (due : nat) (async : Millis → nat) (s : Stamp) (a : A)
    (rest : Hot A) :
  Src.debounceTime due async ((s, a) :: rest)
  = match rest with
    | (s', _) :: _ =>
        if ms s' <? ms s + due then Src.debounceTime due async rest
        else ({| ms := ms s + due; seen := async (ms s + due) |}, a)
               :: Src.debounceTime due async rest
    | [] => [({| ms := ms s + due; seen := async (ms s + due) |}, a)]
    end.
Proof. done. Qed.

(** What [debounceTime] lets through of the values before [x] is decided
    before [x] arrives. *)
Lemma debounceTime_app {A} (due : nat) (async : Millis → nat) (pre post : Hot A)
    (x : Stamp * A) :
  Forall (fun e => ms e.1 ≤ ms x.1) pre →
  ∃ dpre, Src.debounceTime due async (pre ++ x :: post)
          = dpre ++ Src.debounceTime due async (x :: post)
    ∧ Forall (fun e => ms e.1 ≤ ms x.1) dpre.
Proof.
  induction pre as [|[s0 a0] pre IH]; intros Hle.
  { by exists []. }
  apply Forall_cons in Hle as [Hle0 Hle].
  destruct (IH Hle) as (dpre & Heq & Hd).
  assert (∃ h l, pre ++ x :: post = h :: l ∧ ms h.1 ≤ ms x.1) as (h & l & Hl & Hh).
  { destruct pre as [|y pre']; [by exists x, post|].
    exists y, (pre' ++ x :: post). split; [done|].
    by apply Forall_cons in Hle as [? _]. }
  rewrite <- app_comm_cons.
  rewrite (debounceTime_cons due async s0 a0 (pre ++ x :: post)), Heq, Hl.
  destruct h as [s1 a1]. cbn [fst] in Hh.
  destruct (Nat.ltb_spec (ms s1) (ms s0 + due)) as [Hlt|Hge].
  - by exists dpre.
  - exists (({| ms := ms s0 + due; seen := async (ms s0 + due) |}, a0) :: dpre).
    split; [done|]. constructor; [cbn; lia | done].
Qed.

(** The values the graph epic switches on, around a [getGraph] that no
    other follows within 1000 ms: those before it come from timers that ran
    before it was dispatched, then its own, then the timers of the
    [getGraph] actions after it. *)
Lemma refetch_source (earlier later : Log) (t : Millis) :
  let log := earlier ++ (t, getGraph) :: later in
  chronological log →
  Forall (fun e => getGraph_match e.2 = true → t + 1000 ≤ e.1) later →
  ∃ before after,
    Src.debounceTime 1000 (async_of log) (Src.filter getGraph_match (action_of log))
    = before ++ ({| ms := t + 1000; seen := async_of log (t + 1000) |}, getGraph) :: after
    ∧ Forall (fun e => ms e.1 ≤ t) before
    ∧ Forall (fun e => ∃ t', (t', getGraph) ∈ later ∧ ms e.1 = t' + 1000) after.
Proof.
  intros log Hc Hlater.
  change (action_of log) with (stamped 0 (earlier ++ (t, getGraph) :: later)).
  unfold Src.filter.
  rewrite stamped_app, List.filter_app. cbn [stamped List.filter snd getGraph_match fst].
  set (x := ({| ms := t; seen := S (0 + length earlier) |}, getGraph)).
  set (pre := List.filter _ (stamped 0 earlier)).
  set (post := List.filter _ (stamped _ later)).
  destruct (debounceTime_app 1000 (async_of log) pre post x) as (dpre & Heq & Hd).
  { apply Forall_forall. intros [s a] Hin. subst pre.
    apply list_elem_of_In, filter_In in Hin as [Hin _].
    apply list_elem_of_In, stamped_elem in Hin.
    pose proof (StronglySorted_app_1_elem_of _ _ _ (ms s, a) (t, getGraph) Hc Hin) as Hle.
    specialize (Hle ltac:(by left)). cbn in *. lia. }
  exists dpre, (Src.debounceTime 1000 (async_of log) post).
  split; [|split; [exact Hd|]].
  - rewrite Heq. f_equal. subst x. rewrite debounceTime_cons. cbn [ms].
    destruct post as [|[s1 a1] post'] eqn:Hpost; [done|].
    assert (head post = Some (s1, a1)) as Hh by (by rewrite Hpost).
    subst post. apply (head_filter_elem getGraph_match) in Hh as [Hin Hp].
    rewrite Forall_forall in Hlater. pose proof (Hlater _ Hin Hp) as Hge.
    cbn [fst snd ms] in Hge. apply Nat.ltb_ge in Hge. by rewrite Hge.
  - apply Forall_forall. intros [s a] Hin.
    apply debounceTime_elem in Hin as (s0 & Hin & ->). subst post.
    apply list_elem_of_In, filter_In in Hin as [Hin Hp].
    apply list_elem_of_In, stamped_elem in Hin. cbn [snd] in Hp.
    destruct a; try discriminate Hp. by exists (ms s0).
Qed.

Lemma switchMap_cons_emits {A B} (project : A → Cold B) (s : Stamp) (a : A)
    (rest : Hot A) :
  (∀ x t0 te e, ending (project x t0) ≠ Errored te e) →
  emits (Src.switchMap project ((s, a) :: rest))
  = List.filter (fun e => Src.before ((fun y => ms y.1) <$> head rest) e.1)
                (emits (project a (ms s)))
    ++ emits (Src.switchMap project rest).
Proof.
  intros Hok. cbn [Src.switchMap]. set (inner := Src.unsubscribedAt _ _).
  assert (∀ te e, ending inner ≠ Errored te e) as Hinner.
  { subst inner. unfold Src.unsubscribedAt. cbn. intros te e.
    pose proof (Hok a (ms s)) as Hok0.
    destruct (ending (project a (ms s))); [done| |];
      destruct (Src.before _ _); congruence. }
  destruct (ending inner) eqn:He; [done|done|by destruct (Hinner t e)].
Qed.

(** What [switchMap] emits for the values before [x] is emitted before
    [x] arrives. *)
Lemma switchMap_app_emits {A B} (project : A → Cold B) (pre post : Hot A)
    (x : Stamp * A) :
  (∀ y t0 te e, ending (project y t0) ≠ Errored te e) →
  Forall (fun e => ms e.1 ≤ ms x.1) pre →
  ∃ epre, emits (Src.switchMap project (pre ++ x :: post))
          = epre ++ emits (Src.switchMap project (x :: post))
    ∧ Forall (fun e => e.1 < ms x.1) epre.
Proof.
  intros Hok. induction pre as [|[s0 a0] pre IH]; intros Hle.
  { by exists []. }
  apply Forall_cons in Hle as [Hle0 Hle].
  destruct (IH Hle) as (epre & Heq & He).
  assert (∃ h l, pre ++ x :: post = h :: l ∧ ms h.1 ≤ ms x.1) as (h & l & Hl & Hh).
  { destruct pre as [|y pre']; [by exists x, post|].
    exists y, (pre' ++ x :: post). split; [done|].
    by apply Forall_cons in Hle as [? _]. }
  rewrite <- app_comm_cons, (switchMap_cons_emits _ _ _ _ Hok), Heq, Hl.
  eexists. split; [by rewrite app_assoc|].
  apply Forall_app. split; [|done].
  apply Forall_forall. intros [te b] Hin.
  apply list_elem_of_In, filter_In in Hin as [_ Hcut].
  destruct h as [s1 a1]. cbn in Hcut, Hh. apply Nat.ltb_lt in Hcut.
  cbn. unfold Millis in *. lia.
Qed.

(** One call of the graph-refetch workflow sends its request when it is
    subscribed to, and emits nothing before. *)
Lemma graph_call_times remote (x : Action * GraphState) (t0 : Millis) :
  let call :=
    (let '(_, state) := x in
     (match algorithmType state with
      | Dfg => postDfg remote (draft_id (draft state)) (dfgFilters state)
      | Fuzzy => postFuzzy remote (draft_id (draft state)) (fuzzyFilters state)
      end)
     |> Rx.mergeMap (fun data => [setGraph (Some data); setGraphMetrics (metrics data)])
     |> Rx.catchError handleError) t0 in
  requests call = [(t0, computeRequest x.2)]
  ∧ Forall (fun e => t0 ≤ e.1) (emits call).
Proof.
  destruct x as [a st]. cbn zeta. rewrite graph_call. cbn [snd].
  destruct (computeReply remote st t0) as [d [err|data]|]; cbn [requests emits].
  - split; [done|]. destruct (handleError_of err (t0 + d)) as [a' ->].
    cbn. repeat constructor. cbn. lia.
  - split; [done|]. repeat constructor; cbn; lia.
  - split; [done|]. constructor.
Qed.

(** A [getGraph] at [t] that no other follows within 1000 ms: what the
    graph epic sends at [t + 1000] is the one request the state of that
    moment asks for, and when the answer comes after [d] ms, before the timer
    of any later [getGraph] runs, what the epic emits from [t + 1000] to the
    answer is the outcome of that request. *)
Lemma graphEpic_call remote preloaded (earlier later : Log) (t : Millis) :
  let log := earlier ++ (t, getGraph) :: later in
  let fire := t + 1000 in
  let state := stateBefore preloaded log fire in
  let run := graphEpic remote (async_of log) (action_of log) (state_of preloaded log) in
  chronological log →
  Forall (fun e => getGraph_match e.2 = true → fire ≤ e.1) later →
  List.filter (fun r => r.1 =? fire) (requests run) = [(fire, computeRequest state)]
  ∧ ∀ d data,
      computeReply remote state fire = Settles d (inr data) →
      Forall (fun e => getGraph_match e.2 = true → fire + d < e.1 + 1000) later →
      List.filter (fun e => (fire <=? e.1) && (e.1 <=? fire + d)) (emits run)
      = [(fire + d, setGraph (Some data)); (fire + d, setGraphMetrics (metrics data))].
Proof.
  intros log fire state run Hc Hlater. subst run. unfold graphEpic.
  destruct (refetch_source earlier later t Hc Hlater) as (bef & aft & Heq & Hbef & Haft).
  change (earlier ++ (t, getGraph) :: later) with log in Heq. rewrite Heq. clear Heq.
  unfold Src.withLatestFrom. rewrite fmap_app, fmap_cons.
  cbn [fst snd seen]. rewrite (state_of_async_of _ _ _ Hc). fold fire. fold state.
  set (read := fun e : Stamp * Action => (e.1, (e.2, state_of preloaded log (seen e.1)))).
  set (x := ({| ms := fire; seen := async_of log fire |}, (getGraph, state))).
  assert (Forall (fun e => ms e.1 ≤ t) (read <$> bef)) as Hbef'.
  { apply Forall_fmap. eapply Forall_impl; [exact Hbef|]. by intros [s a]. }
  assert (Forall (fun e => ∃ t', (t', getGraph) ∈ later ∧ ms e.1 = t' + 1000)
                 (read <$> aft)) as Haft'.
  { apply Forall_fmap. eapply Forall_impl; [exact Haft|]. by intros [s a]. }
  clearbody read. clear Hbef Haft.
  rewrite Forall_forall in Hlater.
  match goal with |- context [Src.switchMap ?p _] => set (project := p) end.
  assert (∀ y t0 te e, ending (project y t0) ≠ Errored te e) as Hok
    by exact (graph_call_ok remote).
  assert (∀ y t0, requests (project y t0) = [(t0, computeRequest y.2)]
                  ∧ Forall (fun e => t0 ≤ e.1) (emits (project y t0))) as Htimes
    by exact (graph_call_times remote).
  assert (project (getGraph, state) fire
          = match computeReply remote state fire with
            | Settles d (inr data) =>
                mkObs [(fire, computeRequest state)]
                      [(fire + d, setGraph (Some data));
                       (fire + d, setGraphMetrics (metrics data))]
                      (Completed (fire + d))
            | Settles d (inl err) =>
                mkObs [(fire, computeRequest state)] (emits (handleError err (fire + d)))
                      (Completed (fire + d))
            | Pending => mkObs [(fire, computeRequest state)] [] Open
            end) as Hcall
    by exact (graph_call remote state fire).
  clearbody project.
  split.
  - rewrite (proj2 (switchMap_total project _ Hok)).
    rewrite bind_app, bind_cons, !List.filter_app.
    rewrite (filter_none _ (_ ≫= _)), (filter_none _ (_ ≫= _)).
    + subst x. cbn [fst snd ms].
      rewrite (proj1 (Htimes (getGraph, state) fire)).
      cbn [List.filter fst snd app]. by rewrite Nat.eqb_refl.
    + apply Forall_forall. intros r Hr.
      apply list_elem_of_bind in Hr as ([s y] & Hr & Hin).
      rewrite Forall_forall in Haft'. destruct (Haft' _ Hin) as (t' & Hin' & Hms).
      cbn [fst snd] in Hr, Hms.
      rewrite (proj1 (Htimes y (ms s))) in Hr.
      apply list_elem_of_singleton in Hr as ->. cbn [fst].
      pose proof (Hlater _ Hin' eq_refl) as Hge. cbn [fst] in Hge.
      apply Nat.eqb_neq. unfold Millis in *. lia.
    + apply Forall_forall. intros r Hr.
      apply list_elem_of_bind in Hr as ([s y] & Hr & Hin).
      rewrite Forall_forall in Hbef'. pose proof (Hbef' _ Hin) as Hms.
      cbn [fst snd] in Hr, Hms.
      rewrite (proj1 (Htimes y (ms s))) in Hr.
      apply list_elem_of_singleton in Hr as ->. cbn [fst].
      apply Nat.eqb_neq. unfold Millis, fire in *. lia.
  - intros d data Hreply Hquiet. rewrite Forall_forall in Hquiet.
    destruct (switchMap_app_emits project (read <$> bef) (read <$> aft) x Hok)
      as (epre & -> & Hepre).
    { eapply Forall_impl; [exact Hbef'|]. intros [s y] He. subst x. cbn [fst ms] in *. unfold fire, Millis in *. lia. }
    subst x. rewrite (switchMap_cons_emits project _ _ _ Hok).
    rewrite !List.filter_app.
    rewrite (filter_none _ epre), (filter_none _ (emits (Src.switchMap _ _))).
    + cbn [fst snd ms]. rewrite Hcall, Hreply. cbn [emits app].
      assert (Src.before ((fun y => ms y.1) <$> head (read <$> aft)) (fire + d) = true)
        as Hcut.
      { destruct (read <$> aft) as [|h l] eqn:Hl; [done|]. cbn.
        rewrite Forall_forall in Haft'.
        destruct (Haft' h ltac:(by left)) as (t' & Hin' & ->).
        pose proof (Hquiet _ Hin' eq_refl) as Hlt. cbn [fst] in Hlt.
        apply Nat.ltb_lt. unfold Millis in *. lia. }
      cbn [List.filter fst snd app]. rewrite Hcut. cbn [List.filter fst snd app].
      assert ((fire <=? fire + d) && (fire + d <=? fire + d) = true) as ->.
      { apply andb_true_iff. split; apply Nat.leb_le; lia. }
      by rewrite app_nil_r.
    + apply Forall_forall. intros [te ae] He.
      apply switchMap_emits_inv in He as (pre & s & y & post & Hsrc & Hin & _).
      assert ((s, y) ∈ read <$> aft) as Hs.
      { rewrite Hsrc. apply elem_of_app. right. by left. }
      rewrite Forall_forall in Haft'. destruct (Haft' _ Hs) as (t' & Hin' & Hms).
      pose proof (proj2 (Htimes y (ms s))) as Hfrom.
      rewrite Forall_forall in Hfrom.
      pose proof (Hfrom _ Hin) as Hte. pose proof (Hquiet _ Hin' eq_refl) as Hlt.
      cbn [fst] in *. apply andb_false_iff. right. apply Nat.leb_gt.
      unfold Millis in *. lia.
    + apply Forall_forall. intros [te ae] He.
      rewrite Forall_forall in Hepre. pose proof (Hepre _ He) as Hlt.
      cbn [fst ms] in *. apply andb_false_iff. left. apply Nat.leb_gt.
      unfold Millis in *. lia.
Qed.

(** C7 (amended). A [getGraph] at [t] that no other [getGraph] follows
    within 1000 ms, in any chronological run: the epic makes exactly one call
    at [t + 1000], chosen by the state of that moment, after every action
    dispatched before [t + 1000], those dispatched after the trigger
    included.  When that state has the selector [Fuzzy] the call is the fuzzy
    one, with the draft id and the fuzzy filter set of that state, and with
    [Dfg] it is the DFG one with the DFG filter set.  When the call succeeds
    after [d] ms, before the timer of any later [getGraph] runs, what the epic
    emits from the call to the answer is [setGraph] with the payload, then
    [setGraphMetrics] with the metrics of the payload, and nothing else. *)
Theorem graphEpic_dispatch remote preloaded (earlier later : Log) (t : Millis) :
  chronological (earlier ++ (t, getGraph) :: later) →
  Forall (fun e => getGraph_match e.2 = true → t + 1000 ≤ e.1) later →
  let log := earlier ++ (t, getGraph) :: later in
  let fire := t + 1000 in
  let state := stateBefore preloaded log fire in
  let run := graphEpic remote (async_of log) (action_of log) (state_of preloaded log) in
  let sentAt := List.filter (fun r => r.1 =? fire) (requests run) in
  let emittedUntil (d : Millis) :=
    List.filter (fun e => (fire <=? e.1) && (e.1 <=? fire + d)) (emits run) in
  let answeredFirst (d : Millis) :=
    Forall (fun e => getGraph_match e.2 = true → fire + d < e.1 + 1000) later in
  match algorithmType state with
  | Fuzzy =>
      sentAt = [(fire, PostFuzzy (draft_id (draft state)) (fuzzyFilters state))]
      ∧ ∀ d data,
          net_postFuzzy remote (draft_id (draft state)) (fuzzyFilters state) fire
            = Settles d (inr data) →
          answeredFirst d →
          emittedUntil d = [(fire + d, setGraph (Some data));
                            (fire + d, setGraphMetrics (metrics data))]
  | Dfg =>
      sentAt = [(fire, PostDfg (draft_id (draft state)) (dfgFilters state))]
      ∧ ∀ d data,
          net_postDfg remote (draft_id (draft state)) (dfgFilters state) fire
            = Settles d (inr data) →
          answeredFirst d →
          emittedUntil d = [(fire + d, setGraph (Some data));
                            (fire + d, setGraphMetrics (metrics data))]
  end.
Proof.
  intros Hc Hlater log fire state run sentAt emittedUntil answeredFirst.
  destruct (graphEpic_call remote preloaded earlier later t Hc Hlater) as [Hsent Hemit].
  fold log fire state run in Hsent, Hemit.
  unfold computeRequest, computeReply in Hsent, Hemit.
  destruct (algorithmType state); (split; [exact Hsent | exact Hemit]).
Qed.


End EpicProperties.

(** * Concrete runs *)

#[local] Existing Instance sampleModels.

(** C9, counterexample. With two parameters that share a key, the first
    does not get its value back: it reads the value of the second. *)
Lemma roundTrip_shared_key_counterexample :
  p_value <$> roundTrip (@initialState sampleModels) sharedKeyParams
    ≠ p_value <$> sharedKeyParams.
Proof. vm_compute. discriminate. Qed.

(** The run of [twoDraftsLog]: both requests are sent, the answer to the
    first, due at 20 ms, is dropped, the answer to the second is emitted. *)
Example draftEpic_two_drafts :
  draftEpic sampleGateway (action_of twoDraftsLog) (state_of initialState twoDraftsLog)
  = mkObs [(0, PostViewDraft "a"); (5, PostViewDraft "b")]
          [(25, setDraft (Some "draft of b"))]
          Open.
Proof. vm_compute. reflexivity. Qed.

(** C1, an instance: of the two drafts asked for in [twoDraftsLog] the
    second arrives, at 25 ms, and [createDraft "b"] has no successor. *)
Lemma draftEpic_latest_wins_witness :
  chronological twoDraftsLog
  ∧ (25, setDraft (Some "draft of b"))
      ∈ emits (draftEpic sampleGateway (action_of twoDraftsLog)
                         (state_of initialState twoDraftsLog))
  ∧ ∃ earlier ti v later d r,
      twoDraftsLog = earlier ++ (ti, createDraft v) :: later
      ∧ net_postViewDraft sampleGateway v ti = Settles d r
      ∧ 25 = ti + d
      ∧ match r with
        | inr data => setDraft (Some "draft of b") = setDraft data
        | inl err => (25, setDraft (Some "draft of b")) ∈ emits (handleError err 25)
        end
      ∧ ∀ tj v', (tj, createDraft v') ∈ later → 25 < tj.
Proof.
  assert (chronological twoDraftsLog) as Hc.
  { repeat constructor; cbn; lia. }
  assert ((25, setDraft (Some "draft of b"))
            ∈ emits (draftEpic sampleGateway (action_of twoDraftsLog)
                               (state_of initialState twoDraftsLog))) as Hin.
  { apply list_elem_of_In. vm_compute. auto. }
  split; [exact Hc|]. split; [exact Hin|].
  exact (draftEpic_latest_wins sampleGateway initialState twoDraftsLog 25 _ Hc Hin).
Defined.

Lemma lateFilterLog_chronological : chronological lateFilterLog.
Proof. repeat constructor; cbn; lia. Defined.

Lemma lateFilterLog_burst : burst (refetchTimes lateFilterLog).
Proof.
  intros [|[|i]] t t'; cbn; intros [= <-] Ht'; try discriminate.
  injection Ht' as <-. lia.
Defined.

(** C2, an instance of the amended statement: in [lateFilterLog] the one
    request leaves at 1500 ms and carries the filter set dispatched at
    700 ms. *)
Lemma graphEpic_debounced_burst_witness :
  chronological lateFilterLog
  ∧ burst (refetchTimes lateFilterLog)
  ∧ last (refetchTimes lateFilterLog) = Some 500
  ∧ requests (graphEpic sampleGateway (async_of lateFilterLog) (action_of lateFilterLog)
                        (state_of initialState lateFilterLog))
    = [(500 + 1000, computeRequest (stateBefore initialState lateFilterLog (500 + 1000)))].
Proof.
  split; [exact lateFilterLog_chronological|].
  split; [exact lateFilterLog_burst|].
  split; [reflexivity|].
  exact (graphEpic_debounced_burst sampleGateway initialState lateFilterLog 500
           lateFilterLog_chronological lateFilterLog_burst eq_refl).
Defined.

Lemma lateFilterLog_reachable : reachable sampleGateway initialState lateFilterLog.
Proof.
  split; [exact lateFilterLog_chronological|].
  intros e He. apply list_elem_of_In in He. vm_compute in He.
  apply list_elem_of_In. vm_compute. intuition.
Qed.

(** C2, counterexample. In [lateFilterLog] the last [getGraph] is
    dispatched at 500 ms, when the DFG filter set is the initial one; the
    request of the burst carries the filter set dispatched at 700 ms. *)
Lemma graphEpic_late_filter_counterexample :
  ¬ refetchUsesTriggerState sampleGateway initialState lateFilterLog.
Proof.
  intros H.
  destruct (H lateFilterLog_reachable lateFilterLog_burst [(0, getGraph)] 500 _ eq_refl)
    as [tc Hreq].
  { repeat constructor. }
  vm_compute in Hreq. discriminate Hreq.
Qed.

(** C3, at the failing input: [saveDraft] on the initial state, whose
    parameter list is empty. *)
Lemma saveDraftEpic_without_parameters_witness :
  (∀ n, userParams (state_of initialState oneSaveLog n) = [])
  ∧ saveDraftEpic sampleGateway (action_of oneSaveLog) (state_of initialState oneSaveLog)
    = mkObs [] [] Open.
Proof.
  assert (∀ n, userParams (state_of initialState oneSaveLog n) = []) as H.
  { intros [|[|n]]; reflexivity. }
  split; [exact H|].
  exact (saveDraftEpic_without_parameters sampleGateway initialState oneSaveLog H).
Defined.

(** C4, at the failing input: one parameter, whose update the gateway
    answers with status 500. *)
Lemma saveDraftEpic_failure_unhandled_witness :
  let remote := failingGateway (ajaxError 500) in
  let run := saveDraftEpic remote (action_of [(0, saveDraft)])
                           (state_of oneParamState [(0, saveDraft)]) in
  (∃ userParam, userParam ∈ newUserParams (graphReducer oneParamState saveDraft)
                ∧ updateFails remote 0 userParam)
  ∧ emits run = [] ∧ ∃ te e, ending run = Errored te e.
Proof.
  intros remote run.
  assert (∃ userParam, userParam ∈ newUserParams (graphReducer oneParamState saveDraft)
                       ∧ updateFails remote 0 userParam) as H.
  { eexists. split; [apply list_elem_of_In; vm_compute; left; reflexivity | exact I]. }
  split; [exact H|].
  exact (saveDraftEpic_failure_unhandled remote oneParamState 0 H).
Defined.

(** What the run of C4 is, in full: the request, no event, and the error
    of the gateway as the end of the epic's output. *)
Example saveDraftEpic_failure_run :
  saveDraftEpic (failingGateway (ajaxError 500)) (action_of [(0, saveDraft)])
                (state_of oneParamState [(0, saveDraft)])
  = mkObs [(0, PatchDraftParameter "1"
                 (mkParam "1" "dfg" "activity-frequency" (JNum 1)))]
          [] (Errored 20 (ajaxError 500)).
Proof. vm_compute. reflexivity. Qed.

Lemma unauthorizedLog_reachable :
  reachable (failingGateway (ajaxError 401)) initialState unauthorizedLog.
Proof.
  split; [repeat constructor; cbn; lia|].
  intros e He. apply list_elem_of_In in He. vm_compute in He.
  apply list_elem_of_In. vm_compute. intuition.
Qed.

(** C6, counterexample. [createDraft] sets the loading flag; the gateway
    answers with status 401; the one event the epic emits is [authLogout],
    whose transition leaves the flag as it is. *)
Lemma unauthorized_keeps_loading_counterexample :
  ¬ loadingReleased (failingGateway (ajaxError 401)) initialState unauthorizedLog.
Proof.
  intros H.
  destruct (H unauthorizedLog_reachable [] 0 (createDraft "view-42") [(20, authLogout)]
              _ eq_refl eq_refl) as (t' & a' & _ & Hin & Hclear).
  apply list_elem_of_In in Hin. vm_compute in Hin.
  destruct Hin as [[= <- <-]|[]].
  specialize (Hclear (set_isLoading true initialState)). discriminate Hclear.
Qed.

(** C6, an instance of the amended statement: with status 404 the draft
    epic emits an event that clears the flag, and so do the graph epic and
    the save-completion epic. *)
Lemma loading_cleared_unless_unauthorized_witness :
  (∃ a, (0 + 20, a)
          ∈ emits (draftEpic (failingGateway (ajaxError 404)) (action_of oneDraftLog)
                             (state_of initialState oneDraftLog))
        ∧ clearsLoading a)
  ∧ (∃ a, (0 + 1000 + 20, a)
          ∈ emits (graphEpic (failingGateway (ajaxError 404)) (async_of fuzzyLog)
                             (action_of fuzzyLog) (state_of initialState fuzzyLog))
        ∧ clearsLoading a)
  ∧ (∃ a, (0 + 20, a)
          ∈ emits (saveDraftCompleteEpic (failingGateway (ajaxError 404))
                     (action_of [(0, saveDraftComplete)])
                     (state_of initialState [(0, saveDraftComplete)]))
        ∧ clearsLoading a).
Proof.
  split; [|split].
  3: { refine (proj1 (proj2 (proj2 (loading_cleared_unless_unauthorized
                     (failingGateway (ajaxError 404)) initialState [] [] 0 20)))
              (ajaxError 404) _ eq_refl _).
       - constructor.
       - discriminate. }
  - refine (proj1 (loading_cleared_unless_unauthorized
                     (failingGateway (ajaxError 404)) initialState [] [] 0 20)
              "view-42" (inl (ajaxError 404)) _ eq_refl _).
    + constructor.
    + discriminate.
  - refine (proj1 (proj2 (loading_cleared_unless_unauthorized
                     (failingGateway (ajaxError 404)) initialState
                     [(0, setAlgorithmType Fuzzy)] [] 0 20))
              (inl (ajaxError 404)) _ eq_refl _).
    + constructor.
    + discriminate.
Defined.

Lemma fuzzyLog_chronological : chronological fuzzyLog.
Proof. repeat constructor; cbn; lia. Defined.

Lemma resetSelectorLog_chronological : chronological resetSelectorLog.
Proof. repeat constructor; cbn; lia. Defined.

Lemma resetSelectorLog_reachable :
  reachable sampleGateway initialState resetSelectorLog.
Proof.
  split; [exact resetSelectorLog_chronological|].
  intros e He. apply list_elem_of_In in He. vm_compute in He.
  apply list_elem_of_In. vm_compute. intuition.
Qed.

(** C7, counterexample.  In [resetSelectorLog] the [getGraph] is
    dispatched in a state whose selector is [Fuzzy]; the selector is reset
    500 ms later, and the request made 1000 ms after the trigger is the DFG
    one, not the fuzzy one. *)
Lemma graphEpic_reset_selector_counterexample :
  ¬ dispatchUsesTriggerState sampleGateway initialState resetSelectorLog.
Proof.
  intros H.
  assert ((0 + 1000, PostDfg None (dfgFilters initialState))
            ∈ requests (graphEpic sampleGateway (async_of resetSelectorLog)
                                  (action_of resetSelectorLog)
                                  (state_of initialState resetSelectorLog))) as Hin.
  { apply list_elem_of_In. vm_compute. auto. }
  pose proof (H resetSelectorLog_reachable [(0, setAlgorithmType Fuzzy)] 0
                [(500, resetGraphCommonParams);
                 (1020, @setGraph sampleModels (Some ("dfg", "dfg metrics")));
                 (1020, @setGraphMetrics sampleModels "dfg metrics")]
                _ eq_refl ltac:(repeat constructor) Hin) as Hrq.
  vm_compute in Hrq. discriminate Hrq.
Qed.

(** C7, an instance of the amended statement on the same run: the state
    of 1000 ms has the selector [Dfg], the one request of that moment is the
    DFG one with the DFG filter set of that state, and its success gives the
    two events. *)
Lemma graphEpic_dispatch_witness :
  let log := resetSelectorLog in
  let state := stateBefore initialState log 1000 in
  let run := graphEpic sampleGateway (async_of log) (action_of log)
                       (state_of initialState log) in
  let later := [(500, resetGraphCommonParams);
                (1020, @setGraph sampleModels (Some ("dfg", "dfg metrics")));
                (1020, @setGraphMetrics sampleModels "dfg metrics")] in
  chronological log
  ∧ Forall (fun e => getGraph_match e.2 = true → 0 + 1000 ≤ e.1) later
  ∧ List.filter (fun r => r.1 =? 1000) (requests run)
    = [(1000, PostDfg (draft_id (draft state)) (dfgFilters state))]
  ∧ ∀ d data,
      net_postDfg sampleGateway (draft_id (draft state)) (dfgFilters state) 1000
        = Settles d (inr data) →
      Forall (fun e => getGraph_match e.2 = true → 1000 + d < e.1 + 1000) later →
      List.filter (fun e => (1000 <=? e.1) && (e.1 <=? 1000 + d)) (emits run)
      = [(1000 + d, setGraph (Some data)); (1000 + d, setGraphMetrics (metrics data))].
Proof.
  intros log state run later.
  assert (Forall (fun e : Millis * Action => getGraph_match e.2 = true → 0 + 1000 ≤ e.1)
                 later) as Hlater.
  { repeat constructor; cbn; discriminate. }
  split; [exact resetSelectorLog_chronological|].
  split; [exact Hlater|].
  exact (graphEpic_dispatch sampleGateway initialState [(0, setAlgorithmType Fuzzy)]
           later 0 resetSelectorLog_chronological Hlater).
Defined.

(** C9, an instance of the amended statement: the second of the two
    parameters that share a key is the last with that key, and gets its value
    back. *)
Lemma roundTrip_preserves_witness :
  sharedKeyParams !! 1 = Some (mkParam "2" "fuzzy" "threshold" (JNum 2))
  ∧ (∀ j q, 1 < j → sharedKeyParams !! j = Some q →
       p_key q = "threshold" → p_value q = JNum 2)
  ∧ roundTrip initialState sharedKeyParams !! 1
    = Some (mkParam "2" "fuzzy" "threshold" (JNum 2)).
Proof.
  assert (∀ j q, 1 < j → sharedKeyParams !! j = Some q →
            p_key q = "threshold" → p_value q = JNum 2) as H.
  { intros [|[|j]] q Hj; [lia | lia | discriminate]. }
  split; [reflexivity|]. split; [exact H|].
  exact (roundTrip_preserves initialState sharedKeyParams 1 _ eq_refl H).
Defined.

(** The draft-load scenario: [draftLoadLog] is a run of the store with the
    epics, and the events of the epics in it are the draft, the three events
    that follow any draft, the parameters, their projection into both filter
    sets, and the graph with its metrics.  The graph is asked for at 1020 ms
    with the filter set projected at 40 ms, after the [getGraph] of 20 ms. *)
Example draftLoad_reachable : reachable sampleGateway initialState draftLoadLog.
Proof.
  split; [repeat constructor; cbn; lia|].
  intros e He. apply list_elem_of_In in He. vm_compute in He.
  apply list_elem_of_In. vm_compute. intuition.
Qed.

Example draftLoad_request :
  requests (graphEpic sampleGateway (async_of draftLoadLog) (action_of draftLoadLog)
                      (state_of initialState draftLoadLog))
  = [(1020, PostDfg (Some "draft of view-42")
              (<["activity-frequency" := JNum (1 # 2)]> ∅))].
Proof. vm_compute. reflexivity. Qed.

(** The draft load is a run in which the state changes between a
    [getGraph] and its request: the [getGraph] of 20 ms is dispatched with
    the initial DFG filter set, and the request carries the filter set
    projected 20 ms later. *)
Example draftLoad_dispatch :
  ¬ dispatchUsesTriggerState sampleGateway initialState draftLoadLog.
Proof.
  intros H.
  assert ((20 + 1000, PostDfg (Some "draft of view-42")
                        (<["activity-frequency" := JNum (1 # 2)]> ∅))
            ∈ requests (graphEpic sampleGateway (async_of draftLoadLog)
                                  (action_of draftLoadLog)
                                  (state_of initialState draftLoadLog))) as Hin.
  { apply list_elem_of_In. vm_compute. auto. }
  pose proof (H draftLoad_reachable
                [(0, createDraft "view-42");
                 (20, @setDraft sampleModels (Some "draft of view-42"));
                 (20, setDfgFilters (dfgFilters (@initialState sampleModels)));
                 (20, setFuzzyFilters (fuzzyFilters (@initialState sampleModels)))]
                20
                [(40, setUserParams [mkParam "1" "dfg" "activity-frequency" (JNum (1 # 2))]);
                 (40, setDfgFilters (<["activity-frequency" := JNum (1 # 2)]> ∅));
                 (40, setFuzzyFilters (<["activity-frequency" := JNum (1 # 2)]> ∅));
                 (1040, @setGraph sampleModels (Some ("dfg", "dfg metrics")));
                 (1040, @setGraphMetrics sampleModels "dfg metrics")]
                _ eq_refl ltac:(repeat constructor) Hin) as Hrq.
  vm_compute in Hrq. discriminate Hrq.
Qed.

(** The save of a state with one parameter, when the gateway answers: one
    update is sent, with the value read from the DFG filter set, and
    [saveDraftComplete] follows the answer. *)
Example saveDraftEpic_one_parameter :
  saveDraftEpic sampleGateway (action_of oneSaveLog) (state_of oneParamState oneSaveLog)
  = mkObs [(0, PatchDraftParameter "1"
                 (mkParam "1" "dfg" "activity-frequency" (JNum 1)))]
          [(20, saveDraftComplete)] Open.
Proof. vm_compute. reflexivity. Qed.

(** ** Instances of the further properties *)

(** X10, an instance: after a draft was asked for, the request failed and
    a refetch was asked for, the flag is set and the message is empty. *)
Lemma loading_has_no_error_witness :
  (isLoading initialState = true → error initialState = "")
  ∧ (isLoading (foldl graphReducer initialState
                  [createDraft "view-42"; getFailed "boom"; getGraph]) = true →
     error (foldl graphReducer initialState
              [createDraft "view-42"; getFailed "boom"; getGraph]) = "").
Proof.
  assert (isLoading initialState = true → error initialState = "") as H.
  { discriminate. }
  split; [exact H|].
  exact (loading_has_no_error initialState
           [createDraft "view-42"; getFailed "boom"; getGraph] H).
Defined.

Lemma draftLoadLog_chronological : chronological draftLoadLog.
Proof. repeat constructor; cbn; lia. Defined.

(** X2, an instance: in [draftLoadLog] the parameters arrive at 40 ms,
    for the one [setDraft] of the run. *)
Lemma graphUserParametersEpic_latest_wins_witness :
  let a := setUserParams [mkParam "1" "dfg" "activity-frequency" (JNum (1 # 2))] in
  chronological draftLoadLog
  ∧ (40, a) ∈ emits (graphUserParametersEpic sampleGateway (action_of draftLoadLog)
                       (state_of initialState draftLoadLog))
  ∧ ∃ earlier ti loaded later d r,
      draftLoadLog = earlier ++ (ti, setDraft loaded) :: later
      ∧ net_getDraftParams sampleGateway (draft_id loaded) ti = Settles d r
      ∧ 40 = ti + d
      ∧ match r with
        | inr response => a = setUserParams response
        | inl err => (40, a) ∈ emits (handleError err 40)
        end
      ∧ ∀ tj loaded', (tj, setDraft loaded') ∈ later → 40 < tj.
Proof.
  intros a.
  assert ((40, a) ∈ emits (graphUserParametersEpic sampleGateway (action_of draftLoadLog)
                             (state_of initialState draftLoadLog))) as Hin.
  { apply list_elem_of_In. vm_compute. auto. }
  split; [exact draftLoadLog_chronological|]. split; [exact Hin|].
  exact (graphUserParametersEpic_latest_wins sampleGateway initialState draftLoadLog 40 a
           draftLoadLog_chronological Hin).
Defined.

(** X15, an instance: one [saveDraftComplete], committed with success. *)
Lemma saveDraftCompleteEpic_latest_wins_witness :
  let log : Log := [(0, saveDraftComplete)] in
  chronological log
  ∧ (20, resetDraft) ∈ emits (saveDraftCompleteEpic sampleGateway (action_of log)
                                (state_of initialState log))
  ∧ ∃ earlier ti later d r,
      log = earlier ++ (ti, saveDraftComplete) :: later
      ∧ net_postDraft sampleGateway
          (draft_id (draft (foldl graphReducer initialState earlier.*2))) ti
        = Settles d r
      ∧ 20 = ti + d
      ∧ match r with
        | inr _ => resetDraft = resetDraft
        | inl err => (20, resetDraft) ∈ emits (handleError err 20)
        end
      ∧ ∀ tj, (tj, saveDraftComplete) ∈ later → 20 < tj.
Proof.
  intros log.
  assert (chronological log) as Hc by (repeat constructor).
  assert ((20, resetDraft) ∈ emits (saveDraftCompleteEpic sampleGateway (action_of log)
                                      (state_of initialState log))) as Hin.
  { apply list_elem_of_In. vm_compute. auto. }
  split; [exact Hc|]. split; [exact Hin|].
  exact (saveDraftCompleteEpic_latest_wins sampleGateway initialState log 20 resetDraft
           Hc Hin).
Defined.

(** X9, an instance: the second [getGraph] of [lateFilterLog], at 500 ms,
    has no successor, and its request leaves at 1500 ms. *)
Lemma graphEpic_isolated_trigger_witness :
  let later : Log :=
    [(700, setDfgFilters halfActivity);
     (1520, setGraph (Some ("dfg", "dfg metrics")));
     (1520, setGraphMetrics "dfg metrics")] in
  Forall (fun e => getGraph_match e.2 = true → 500 + 1000 ≤ e.1) later
  ∧ (500 + 1000,
     computeRequest (state_of initialState lateFilterLog
                       (async_of lateFilterLog (500 + 1000))))
    ∈ requests (graphEpic sampleGateway (async_of lateFilterLog)
                  (action_of lateFilterLog) (state_of initialState lateFilterLog)).
Proof.
  intros later.
  assert (Forall (fun e => getGraph_match e.2 = true → 500 + 1000 ≤ e.1) later) as H.
  { repeat constructor; discriminate. }
  split; [exact H|].
  exact (graphEpic_isolated_trigger sampleGateway initialState [(0, getGraph)] later 500 H).
Defined.

(** X3, an instance: the save of [oneParamState] with [sampleGateway]. *)
Lemma saveDraftEpic_all_answered_witness :
  let ps := newUserParams oneParamState in
  Forall (fun e : Millis * Action => saveDraft_match e.2 = false) []
  ∧ ps ≠ []
  ∧ Forall (fun p => ¬ updateFails sampleGateway 0 p) ps
  ∧ saveDraftEpic sampleGateway (action_of oneSaveLog) (state_of oneParamState oneSaveLog)
    = mkObs (updateRequests 0 ps)
            [(max_list (updateAnswered sampleGateway 0 <$> ps), saveDraftComplete)]
            Open.
Proof.
  intros ps.
  assert (ps ≠ []) as Hne by discriminate.
  assert (Forall (fun p => ¬ updateFails sampleGateway 0 p) ps) as Hok.
  { repeat constructor. unfold updateFails. cbn. lia. }
  split; [constructor|]. split; [exact Hne|]. split; [exact Hok|].
  exact (saveDraftEpic_all_answered sampleGateway oneParamState [] [] 0
           (List.Forall_nil _) (List.Forall_nil _) Hne Hok).
Defined.

(** X4, an instance: the same save with a gateway that fails. *)
Lemma saveDraftEpic_settles_witness :
  let ps := newUserParams oneParamState in
  let run := saveDraftEpic (failingGateway (ajaxError 500)) (action_of oneSaveLog)
                           (state_of oneParamState oneSaveLog) in
  ps ≠ []
  ∧ ((∃ tm, tm < 0 + 1000
            ∧ run = mkObs (updateRequests 0 ps) [(tm, saveDraftComplete)] Open)
     ∨ (∃ te e, te ≤ 0 + 1000
                ∧ run = mkObs (updateRequests 0 ps) [] (Errored te e))).
Proof.
  intros ps run.
  assert (ps ≠ []) as Hne by discriminate.
  split; [exact Hne|].
  exact (saveDraftEpic_settles (failingGateway (ajaxError 500)) oneParamState [] [] 0
           (List.Forall_nil _) (List.Forall_nil _) Hne).
Defined.

(** X5, an instance: a save that fails, and a second save two seconds
    later, which sends nothing. *)
Lemma saveDraftEpic_dead_after_failure_witness :
  let remote := failingGateway (ajaxError 500) in
  let later : Log := [(2000, saveDraft)] in
  let log : Log := (0, saveDraft) :: later in
  let ps := newUserParams oneParamState in
  let run := saveDraftEpic remote (action_of log) (state_of oneParamState log) in
  Forall (fun e => saveDraft_match e.2 = true → 0 + 1000 < e.1) later
  ∧ Exists (updateFails remote 0) ps
  ∧ requests run = updateRequests 0 ps
  ∧ emits run = []
  ∧ ∃ te e, ending run = Errored te e.
Proof.
  intros remote later log ps run.
  assert (Forall (fun e => saveDraft_match e.2 = true → 0 + 1000 < e.1) later) as Hlater.
  { constructor; [intros _; cbn; lia | constructor]. }
  assert (Exists (updateFails remote 0) ps) as Hex.
  { left. exact I. }
  split; [exact Hlater|]. split; [exact Hex|].
  exact (saveDraftEpic_dead_after_failure remote oneParamState [] later 0
           (List.Forall_nil _) Hlater Hex).
Defined.

(** X17, an instance: after the projection of [sharedKeyParams] the key
    [variant-frequency] of the initial DFG filter set is a property of
    neither filter set. *)
Lemma projection_drops_other_keys_witness :
  ("variant-frequency" ∉ (p_key <$> sharedKeyParams))
  ∧ dfgFilters (projected initialState sharedKeyParams) !! "variant-frequency" = None
  ∧ fuzzyFilters (projected initialState sharedKeyParams) !! "variant-frequency" = None.
Proof.
  assert ("variant-frequency" ∉ (p_key <$> sharedKeyParams)) as H.
  { intros Hin. apply list_elem_of_In in Hin. cbn in Hin.
    destruct Hin as [Heq|[Heq|[]]]; discriminate Heq. }
  split; [exact H|].
  exact (projection_drops_other_keys initialState sharedKeyParams "variant-frequency" H).
Defined.

(** X18, an instance: in [lateFilterLog] the [getGraph] of 500 ms follows
    the one of 0 ms, and nothing is requested at 1000 ms. *)
Lemma graphEpic_superseded_trigger_witness :
  chronological lateFilterLog
  ∧ (500, getGraph) ∈ lateFilterLog
  ∧ 0 < 500
  ∧ 500 < 0 + 1000
  ∧ (0 + 1000, PostDfg None (dfgFilters initialState))
      ∉ requests (graphEpic sampleGateway (async_of lateFilterLog)
                    (action_of lateFilterLog) (state_of initialState lateFilterLog)).
Proof.
  assert ((500, getGraph) ∈ lateFilterLog) as Hin.
  { apply list_elem_of_In. right. left. reflexivity. }
  assert (0 < 500) as H1 by lia.
  assert (500 < 0 + 1000) as H2 by lia.
  split; [exact lateFilterLog_chronological|]. split; [exact Hin|].
  split; [exact H1|]. split; [exact H2|].
  exact (graphEpic_superseded_trigger sampleGateway initialState lateFilterLog 0 500 _
           lateFilterLog_chronological Hin H1 H2).
Defined.

(** X19, an instance: the draft that the draft epic emits in
    [draftLoadLog]. *)
Lemma epics_emit_only_witness :
  (20, setDraft (Some "draft of view-42")) ∈ emitted sampleGateway initialState draftLoadLog
  ∧ emittable (setDraft (Some "draft of view-42")) = true.
Proof.
  assert ((20, setDraft (Some "draft of view-42"))
            ∈ emitted sampleGateway initialState draftLoadLog) as Hin.
  { apply list_elem_of_In. vm_compute. auto. }
  split; [exact Hin|].
  exact (epics_emit_only sampleGateway initialState draftLoadLog _ Hin).
Defined.

(** X8, on [lateFilterLog]: the one request of the run leaves at 1500 ms,
    1000 ms after the [getGraph] of 500 ms, and asks for the DFG with the
    filter set of that moment. *)
Lemma graphEpic_requests_witness :
  (1500, PostDfg None halfActivity)
    ∈ requests (graphEpic sampleGateway (async_of lateFilterLog)
                          (action_of lateFilterLog)
                          (state_of initialState lateFilterLog))
  ∧ ∃ t, (t, getGraph) ∈ lateFilterLog
         ∧ 1500 = t + 1000
         ∧ PostDfg None halfActivity
           = computeRequest (state_of initialState lateFilterLog
                                      (async_of lateFilterLog 1500)).
Proof.
  assert ((1500, PostDfg None halfActivity)
    ∈ requests (graphEpic sampleGateway (async_of lateFilterLog)
                          (action_of lateFilterLog)
                          (state_of initialState lateFilterLog))) as Hin.
  { apply list_elem_of_In. vm_compute. auto. }
  split; [exact Hin|].
  exact (graphEpic_requests sampleGateway initialState lateFilterLog 1500 _ Hin).
Defined.
